(** * A 3-D pre-activation ResNet backbone: model and verification

    Shallow embedding of
    [nnunet/network_architecture/transunet/vit_seg_modeling_resnet_skip_3d.py].

    Tensors live in a store and are handled through locations, as Python
    handles them through references: an operation of the tensor runtime
    allocates its result, the in-place activation overwrites its argument,
    and a module keeps the locations of its parameters.  Shapes, dtypes and
    devices are computed; the entries of the tensors are the scalars of an
    arbitrary runtime (type class [Runtime]).  The one place where the
    control flow depends on floating-point arithmetic, the right spatial
    shape of [ensure_right_shape], is computed with the rounding of the
    default dtype. *)

From Stdlib Require Import ZArith QArith Qround Lia.
From stdpp Require Import base tactics option list numbers.

Close Scope Q_scope.
Local Open Scope Z_scope.

(** ** Exceptions and results *)

Inductive exn :=
| AssertionError
| AttributeError
| IndexError
| RuntimeError
| ValueError
| ZeroDivisionError.

Definition result (A : Type) : Type := exn + A.

Definition Ok {A} (a : A) : result A := inr a.
Definition Raise {A} (e : exn) : result A := inl e.

#[export] Instance result_ret : MRet result := λ A a, inr a.
#[export] Instance result_bind : MBind result := λ A B f r,
  match r with inl e => inl e | inr a => f a end.
#[export] Instance result_fmap : FMap result := λ A B f r,
  match r with inl e => inl e | inr a => inr (f a) end.

#[export] Instance exn_eq_dec : EqDecision exn.
Proof. solve_decision. Defined.

(** ** Tensors *)

Inductive dtype := float16 | bfloat16 | float32 | float64.

Inductive device := cpu | cuda (index : nat).

#[export] Instance dtype_eq_dec : EqDecision dtype.
Proof. solve_decision. Defined.

#[export] Instance device_eq_dec : EqDecision device.
Proof. solve_decision. Defined.

(** Type promotion of two floating dtypes (torch.result_type). *)
Definition promote (a b : dtype) : dtype :=
  match a, b with
  | float64, _ | _, float64 => float64
  | float32, _ | _, float32 => float32
  | float16, float16 => float16
  | bfloat16, bfloat16 => bfloat16
  | _, _ => float32
  end.

(** ** Floating-point formats

    The binary formats of the four dtypes: the number of bits of the
    significand (the hidden bit included) and the largest exponent. *)
Definition significand_bits (dt : dtype) : Z :=
  match dt with float16 => 11 | bfloat16 => 8 | float32 => 24 | float64 => 53
  end.

Definition max_exponent (dt : dtype) : Z :=
  match dt with
  | float16 => 15 | bfloat16 => 127 | float32 => 127 | float64 => 1023
  end.

(** A value of a format: [m * 2^e], an infinity, or not a number.  The
    zeros of this file come from integers and are positive. *)
Inductive float := Finite (m e : Z) | Infinity (negative : bool) | NaN.

(** [a * 2^k] for a positive [k], [a] otherwise. *)
Definition shl (a k : Z) : Z := a * 2 ^ Z.max 0 k.

(** [floor(log2(a / b))] for positive [a] and [b]. *)
Definition log2_ratio (a b : Z) : Z :=
  let e := Z.log2 a - Z.log2 b in
  if shl b e <=? shl a (- e) then e else e - 1.

(** The integer nearest to [a / b] for a positive [b]; the even one when
    two are as near. *)
Definition nearest_even (a b : Z) : Z :=
  let q := a / b in
  match 2 * (a mod b) ?= b with
  | Lt => q
  | Gt => q + 1
  | Eq => if Z.even q then q else q + 1
  end.

(** [a / b], for a positive [b], rounded to the format [dt]: to the
    nearest value, with an even significand on a tie.  Below the smallest
    normal value the spacing is that of the subnormal values; a result
    beyond the largest finite value is an infinity. *)
Definition round_ratio (dt : dtype) (a b : Z) : float :=
  if a =? 0 then Finite 0 0 else
  let p := significand_bits dt in
  let emax := max_exponent dt in
  let e := Z.max (log2_ratio (Z.abs a) b) (1 - emax) - (p - 1) in
  let m := nearest_even (shl (Z.abs a) (- e)) (shl b e) in
  if emax + 1 <=? Z.log2 m + e then Infinity (a <? 0)
  else Finite (Z.sgn a * m) e.

(** An integer converted to the format. *)
Definition float_of_int (dt : dtype) (n : Z) : float := round_ratio dt n 1.

(** The division of the format. *)
Definition float_div (dt : dtype) (x y : float) : float :=
  match x, y with
  | NaN, _ | _, NaN => NaN
  | Infinity _, Infinity _ => NaN
  | Infinity s, Finite m _ => Infinity (xorb s (m <? 0))
  | Finite _ _, Infinity _ => Finite 0 0
  | Finite m1 e1, Finite m2 e2 =>
      if m2 =? 0 then (if m1 =? 0 then NaN else Infinity (m1 <? 0))
      else round_ratio dt (Z.sgn m2 * shl m1 (e1 - e2))
                          (shl (Z.abs m2) (e2 - e1))
  end.

(** [x.floor()]: an integer is a value of the format. *)
Definition float_floor (x : float) : float :=
  match x with
  | Finite m e => if 0 <=? e then x else Finite (m / 2 ^ (- e)) 0
  | _ => x
  end.

(** The scalar arithmetic and the numeric kernels of the tensor runtime.
    [kaiming_uniform seed shape] is the initial value drawn for a
    convolution weight; the three kernels give the entries of the output of
    a cross-correlation, a group normalisation and a max-pooling, whose
    shapes are computed below.  [undefined_int x] is what the conversion to
    int32 gives for an [x] that is not finite or lies outside the range of
    int32, which the runtime leaves to the platform. *)
Class Runtime := {
  V : Type;
  default_dtype : dtype;
  vzero : V;
  vone : V;
  v_of_Z : Z → V;
  v_of_Q : Q → V;
  vadd : dtype → V → V → V;
  vsub : dtype → V → V → V;
  vmul : dtype → V → V → V;
  vdiv : dtype → V → V → V;
  vsqrt : dtype → V → V;
  vmax : V → V → V;
  vcast : dtype → V → V;
  undefined_int : float → Z;
  kaiming_uniform : nat → list Z → list Z → V;
  conv3d_kernel :
    list Z → (list Z → V) → list Z → (list Z → V) → option (list Z → V) →
    Z → Z → Z → Z → list Z → V;
  group_norm_kernel :
    list Z → (list Z → V) → Z → (list Z → V) → (list Z → V) → Q → list Z → V;
  max_pool3d_kernel : list Z → (list Z → V) → Z → Z → Z → list Z → V
}.

Section Model.
Context `{RT : Runtime}.

Record tensor := Tensor {
  shape : list Z;
  t_dtype : dtype;
  t_device : device;
  data : list Z → V
}.

(** A numpy array, as [np2th] receives it. *)
Record ndarray := NDArray {
  nd_shape : list Z;
  nd_dtype : dtype;
  nd_data : list Z → V
}.

Definition product (l : list Z) : Z := foldr Z.mul 1 l.

(** [idx] addresses an entry of a tensor of shape [s]. *)
Definition in_range (s idx : list Z) : Prop :=
  Forall2 (λ n i, 0 ≤ i < n) s idx.

Definition in_rangeb (s idx : list Z) : bool :=
  bool_decide (length s = length idx) &&
  forallb (λ p, (0 <=? p.2) && (p.2 <? p.1)) (zip s idx).

(** Copying a scalar between dtypes is exact when they agree. *)
Definition convert (from to : dtype) (v : V) : V :=
  if decide (from = to) then v else vcast to v.

(** ** Broadcasting *)

Fixpoint broadcast_rev (s1 s2 : list Z) : result (list Z) :=
  match s1, s2 with
  | [], s | s, [] => Ok s
  | a :: s1', b :: s2' =>
      if a =? b then cons a <$> broadcast_rev s1' s2'
      else if a =? 1 then cons b <$> broadcast_rev s1' s2'
      else if b =? 1 then cons a <$> broadcast_rev s1' s2'
      else Raise RuntimeError
  end.

Definition broadcast_shapes (s1 s2 : list Z) : result (list Z) :=
  reverse <$> broadcast_rev (reverse s1) (reverse s2).

(** The entry of an operand of shape [s] read for the entry [idx] of the
    broadcast result: trailing axes are aligned, an axis of size 1 is read
    at 0. *)
Definition bidx (s idx : list Z) : list Z :=
  zip_with (λ n i, if n =? 1 then 0 else i) s
           (drop (length idx - length s)%nat idx).

Definition binop (f : dtype → V → V → V) (a b : tensor) : result tensor :=
  if decide (t_device a = t_device b) then
    s ← broadcast_shapes (shape a) (shape b);
    let dt := promote (t_dtype a) (t_dtype b) in
    Ok (Tensor s dt (t_device a)
          (λ idx, f dt (convert (t_dtype a) dt (data a (bidx (shape a) idx)))
                       (convert (t_dtype b) dt (data b (bidx (shape b) idx)))))
  else Raise RuntimeError.

Definition sub_val : tensor → tensor → result tensor := binop vsub.
Definition div_val : tensor → tensor → result tensor := binop vdiv.
Definition add_val : tensor → tensor → result tensor := binop vadd.

(** [t + c] for a Python float [c]. *)
Definition add_scalar_val (t : tensor) (c : Q) : tensor :=
  Tensor (shape t) (t_dtype t) (t_device t)
         (λ idx, vadd (t_dtype t) (data t idx) (v_of_Q c)).

Definition sqrt_val (t : tensor) : tensor :=
  Tensor (shape t) (t_dtype t) (t_device t)
         (λ idx, vsqrt (t_dtype t) (data t idx)).

Definition relu_val (t : tensor) : tensor :=
  Tensor (shape t) (t_dtype t) (t_device t) (λ idx, vmax (data t idx) vzero).

(** ** Reductions: torch.var_mean(w, dim, keepdim=True, unbiased) *)

Definition vsum (dt : dtype) (l : list V) : V := foldl (vadd dt) vzero l.

(** The entries reduced into the entry [idx] of the result: the axes in
    [dims] range over their extent, the others stay at [idx]. *)
Fixpoint sub_indices (s : list Z) (dims : list nat) (pos : nat) (idx : list Z)
  : list (list Z) :=
  match s, idx with
  | n :: s', i :: idx' =>
      let rest := sub_indices s' dims (S pos) idx' in
      if bool_decide (pos ∈ dims)
      then j ← seqZ 0 n; cons j <$> rest
      else cons i <$> rest
  | _, _ => [[]]
  end.

Definition keepdim_shape (s : list Z) (dims : list nat) : list Z :=
  imap (λ pos n, if bool_decide (pos ∈ dims) then 1 else n) s.

Definition reduced_count (s : list Z) (dims : list nat) : Z :=
  product (omap (λ pos, s !! pos) dims).

Definition mean_at (w : tensor) (dims : list nat) (idx : list Z) : V :=
  vdiv (t_dtype w)
       (vsum (t_dtype w) (data w <$> sub_indices (shape w) dims 0 idx))
       (v_of_Z (reduced_count (shape w) dims)).

Definition var_at (w : tensor) (dims : list nat) (unbiased : bool)
    (idx : list Z) : V :=
  let dt := t_dtype w in
  let m := mean_at w dims idx in
  vdiv dt
    (vsum dt ((λ j, let c := vsub dt (data w j) m in vmul dt c c)
                <$> sub_indices (shape w) dims 0 idx))
    (v_of_Z (reduced_count (shape w) dims - (if unbiased then 1 else 0))).

Definition var_mean_val (w : tensor) (dims : list nat) (unbiased : bool)
  : result (tensor * tensor) :=
  if forallb (λ d, bool_decide (d < length (shape w))%nat) dims then
    let s := keepdim_shape (shape w) dims in
    Ok (Tensor s (t_dtype w) (t_device w) (var_at w dims unbiased),
        Tensor s (t_dtype w) (t_device w) (mean_at w dims))
  else Raise IndexError.

(** ** Convolution, group normalisation, pooling: shapes and checks *)

Definition conv_out_size (n k stride padding dilation : Z) : result Z :=
  let eff := dilation * (k - 1) + 1 in
  if n + 2 * padding <? eff then Raise RuntimeError
  else Ok ((n + 2 * padding - eff) / stride + 1).

Definition same_kind (a b : tensor) : bool :=
  bool_decide (t_dtype a = t_dtype b) && bool_decide (t_device a = t_device b).

(** F.conv3d(x, w, bias, stride, padding, dilation, groups) on a batched
    input (five axes), with the same stride, padding and dilation on the
    three spatial axes: the output extent of an axis is
    [floor((n + 2 * padding - dilation * (k - 1) - 1) / stride) + 1]. *)
Definition conv3d_val (x w : tensor) (bias : option tensor)
    (stride padding dilation groups : Z) : result tensor :=
  match shape x, shape w with
  | [b; c; d; h; wd], [o; i; kd; kh; kw] =>
      if negb (same_kind x w) then Raise RuntimeError
      else if negb ((0 <? stride) && (0 <=? padding) && (0 <? dilation)
                    && (0 <? groups)) then Raise RuntimeError
      else if negb ((c =? i * groups) && (o mod groups =? 0))
      then Raise RuntimeError
      else if negb (match bias with
                    | Some bv => same_kind x bv && bool_decide (shape bv = [o])
                    | None => true
                    end) then Raise RuntimeError
      else
        od ← conv_out_size d kd stride padding dilation;
        oh ← conv_out_size h kh stride padding dilation;
        ow ← conv_out_size wd kw stride padding dilation;
        Ok (Tensor [b; o; od; oh; ow] (t_dtype x) (t_device x)
              (conv3d_kernel (shape x) (data x) (shape w) (data w)
                 (data <$> bias) stride padding dilation groups))
  | _, _ => Raise RuntimeError
  end.

(** F.group_norm: the guard of [_verify_batch_size] (more than one value
    per group is required) comes first, then the divisibility of the
    channel count by the number of groups. *)
Definition group_norm_val (x : tensor) (num_groups : Z) (weight bias : tensor)
    (eps : Q) : result tensor :=
  match shape x with
  | b :: c :: spatial =>
      if num_groups =? 0 then Raise ZeroDivisionError
      else if (b * c) / num_groups * product spatial =? 1 then Raise ValueError
      else if negb (c mod num_groups =? 0) then Raise RuntimeError
      else if negb (same_kind x weight && same_kind x bias
                    && bool_decide (shape weight = [c])
                    && bool_decide (shape bias = [c])) then Raise RuntimeError
      else Ok (Tensor (shape x) (t_dtype x) (t_device x)
                 (group_norm_kernel (shape x) (data x) num_groups
                    (data weight) (data bias) eps))
  | _ => Raise RuntimeError
  end.

Definition pool_out_size (n k stride padding : Z) : result Z :=
  let o := (n + 2 * padding - k) / stride + 1 in
  if o <? 1 then Raise RuntimeError else Ok o.

(** nn.MaxPool3d(kernel_size, stride, padding) on a batched input, with
    the default dilation 1 and [ceil_mode=False]: the output extent of an
    axis is [floor((n + 2 * padding - k) / stride) + 1]. *)
Definition max_pool3d_val (x : tensor) (k stride padding : Z) : result tensor :=
  match shape x with
  | [b; c; d; h; w] =>
      if negb ((0 <? k) && (0 <? stride) && (0 <=? padding)
               && (2 * padding <=? k)) then Raise RuntimeError
      else
        od ← pool_out_size d k stride padding;
        oh ← pool_out_size h k stride padding;
        ow ← pool_out_size w k stride padding;
        Ok (Tensor [b; c; od; oh; ow] (t_dtype x) (t_device x)
              (max_pool3d_kernel (shape x) (data x) k stride padding))
  | _ => Raise RuntimeError
  end.

(** torch.zeros(shape, device=dev): the dtype is the default one. *)
Definition zeros_val (s : list Z) (dev : device) : result tensor :=
  if forallb (λ n, 0 <=? n) s
  then Ok (Tensor s default_dtype dev (λ _, vzero))
  else Raise RuntimeError.

(** [feat[:, :, :d, :h, :w] = x] for non-negative [d], [h], [w]: the slice
    stops at the extent of [feat]; [x] must broadcast to the slice, and its
    entries are converted to the dtype of [feat]. *)
Definition setitem_corner (feat : tensor) (d h w : Z) (x : tensor)
  : result tensor :=
  match shape feat with
  | [fb; fc; fd; fh; fw] =>
      let slice := [fb; fc; Z.min d fd; Z.min h fh; Z.min w fw] in
      match broadcast_shapes (shape x) slice with
      | inr s =>
          if bool_decide (s = slice) then
            Ok (Tensor (shape feat) (t_dtype feat) (t_device feat)
                  (λ idx, if in_rangeb slice idx
                          then convert (t_dtype x) (t_dtype feat)
                                 (data x (bidx (shape x) idx))
                          else data feat idx))
          else Raise RuntimeError
      | inl e => Raise e
      end
  | _ => Raise IndexError
  end.

(** ** The store *)

Abbreviation store := (list tensor).
Abbreviation loc := nat.

Definition M (A : Type) : Type := store → result (A * store).

#[export] Instance M_ret : MRet M := λ A a σ, Ok (a, σ).
#[export] Instance M_bind : MBind M := λ A B f m σ,
  match m σ with inl e => inl e | inr (a, σ') => f a σ' end.
#[export] Instance M_fmap : FMap M := λ A B f m σ,
  match m σ with inl e => inl e | inr (a, σ') => Ok (f a, σ') end.

Definition raise {A} (e : exn) : M A := λ _, Raise e.

Definition lift {A} (r : result A) : M A := λ σ,
  match r with inl e => inl e | inr a => Ok (a, σ) end.

Definition alloc (v : tensor) : M loc := λ σ, Ok (length σ, σ ++ [v]).

Definition load (l : loc) : M tensor := λ σ,
  match σ !! l with Some v => Ok (v, σ) | None => Raise RuntimeError end.

Definition store_at (l : loc) (v : tensor) : M unit := λ σ,
  Ok (tt, <[l := v]> σ).

Definition load_opt (l : option loc) : M (option tensor) :=
  match l with Some b => Some <$> load b | None => mret None end.

(** [t[i]] on a Python sequence. *)
Definition index {A} (l : list A) (i : nat) : result A :=
  match l !! i with Some a => Ok a | None => Raise IndexError end.

(** ** Runtime operations on stored tensors *)

Definition torch_var_mean (w : loc) (dims : list nat) (unbiased : bool)
  : M (loc * loc) :=
  wv ← load w;
  vm ← lift (var_mean_val wv dims unbiased);
  v ← alloc vm.1;
  m ← alloc vm.2;
  mret (v, m).

Definition torch_binop (f : tensor → tensor → result tensor) (a b : loc)
  : M loc :=
  va ← load a; vb ← load b; r ← lift (f va vb); alloc r.

Definition torch_sub : loc → loc → M loc := torch_binop sub_val.
Definition torch_div : loc → loc → M loc := torch_binop div_val.
Definition torch_add : loc → loc → M loc := torch_binop add_val.

Definition torch_add_scalar (a : loc) (c : Q) : M loc :=
  va ← load a; alloc (add_scalar_val va c).

Definition torch_sqrt (a : loc) : M loc :=
  va ← load a; alloc (sqrt_val va).

Definition F_conv3d (x w : loc) (bias : option loc)
    (stride padding dilation groups : Z) : M loc :=
  xv ← load x; wv ← load w; bv ← load_opt bias;
  r ← lift (conv3d_val xv wv bv stride padding dilation groups);
  alloc r.

Definition F_group_norm (x : loc) (num_groups : Z) (weight bias : loc)
    (eps : Q) : M loc :=
  xv ← load x; wv ← load weight; bv ← load bias;
  r ← lift (group_norm_val xv num_groups wv bv eps);
  alloc r.

Definition torch_zeros (s : list Z) (dev : device) : M loc :=
  r ← lift (zeros_val s dev); alloc r.

Definition setitem (feat : loc) (d h w : Z) (x : loc) : M unit :=
  fv ← load feat; xv ← load x;
  r ← lift (setitem_corner fv d h w xv);
  store_at feat r.

(** A parameter created by a module constructor: default dtype, on the
    CPU; [init] receives the location as the seed of the draw. *)
Definition new_parameter (s : list Z) (init : nat → list Z → V) : M loc :=
  λ σ, if forallb (λ n, 0 <=? n) s
       then alloc (Tensor s default_dtype cpu (init (length σ))) σ
       else Raise RuntimeError.

(** ** np2th *)

Definition position (p : nat) (axes : list nat) : nat :=
  default 0%nat (fst <$> list_find (λ a, a = p) axes).

(** [ndarray.transpose(axes)]: the axis [k] of the result is the axis
    [axes[k]] of the array; the list must name every axis once. *)
Definition transpose (a : ndarray) (axes : list nat) : result ndarray :=
  let n := length (nd_shape a) in
  if negb (bool_decide (length axes = n)) then Raise ValueError
  else if negb (forallb (λ p, bool_decide (p ∈ axes)) (seq 0 n))
  then Raise ValueError
  else Ok (NDArray ((λ ax, default 0 (nd_shape a !! ax)) <$> axes)
             (nd_dtype a)
             (λ idx, nd_data a
                ((λ p, default 0 (idx !! position p axes)) <$> seq 0 n))).

Definition torch_from_numpy (a : ndarray) : M loc :=
  alloc (Tensor (nd_shape a) (nd_dtype a) cpu (nd_data a)).

(** [np2th] (lines 11-15): "Possibly convert HWIO to OIHW." *)
Definition np2th (weights : ndarray) (conv : bool) : M loc :=
  weights ← lift (if conv then transpose weights [3; 2; 0; 1]%nat
                  else Ok weights);
  torch_from_numpy weights.

(** ** StdConv3d *)

Record StdConv3d := {
  in_channels : Z;
  out_channels : Z;
  kernel_size : Z;
  stride : Z;
  padding : Z;
  dilation : Z;
  groups : Z;
  weight : loc;
  bias : option loc
}.

(** nn.Conv3d.__init__, inherited by StdConv3d. *)
Definition StdConv3d_init (cin cout kernel_size stride padding : Z)
    (bias : bool) (groups : Z) : M StdConv3d :=
  if groups <=? 0 then raise ValueError
  else if negb (cin mod groups =? 0) then raise ValueError
  else if negb (cout mod groups =? 0) then raise ValueError
  else
    let s := [cout; cin / groups; kernel_size; kernel_size; kernel_size] in
    w ← new_parameter s (λ seed, kaiming_uniform seed s);
    b ← (if bias
         then Some <$> new_parameter [cout] (λ seed, kaiming_uniform seed [cout])
         else mret None);
    mret {| in_channels := cin; out_channels := cout;
            kernel_size := kernel_size; stride := stride; padding := padding;
            dilation := 1; groups := groups; weight := w; bias := b |}.

(** [StdConv3d.forward] (lines 20-25). *)
Definition StdConv3d_forward (self : StdConv3d) (x : loc) : M loc :=
  let w := weight self in
  vm ← torch_var_mean w [1; 2; 3; 4]%nat false;
  let v := vm.1 in
  let m := vm.2 in
  c ← torch_sub w m;
  e ← torch_add_scalar v (1 # 100000)%Q;
  s ← torch_sqrt e;
  w ← torch_div c s;
  F_conv3d x w (bias self) (stride self) (padding self)
           (dilation self) (groups self).

(** [conv3x3_3d] and [conv1x1_3d] (lines 28-35); the callers pass the
    default arguments. *)
Definition conv3x3_3d (cin cout stride groups : Z) (bias : bool)
  : M StdConv3d :=
  StdConv3d_init cin cout 3 stride 1 bias groups.

Definition conv1x1_3d (cin cout stride : Z) (bias : bool) : M StdConv3d :=
  StdConv3d_init cin cout 1 stride 0 bias 1.

(** ** nn.GroupNorm, nn.ReLU(inplace=True), nn.MaxPool3d *)

Record GroupNorm := {
  num_groups : Z;
  num_channels : Z;
  gn_eps : Q;
  gn_weight : loc;
  gn_bias : loc
}.

Definition GroupNorm_init (num_groups num_channels : Z) (eps : Q)
  : M GroupNorm :=
  if num_groups =? 0 then raise ZeroDivisionError
  else if negb (num_channels mod num_groups =? 0) then raise ValueError
  else
    w ← new_parameter [num_channels] (λ _ _, vone);
    b ← new_parameter [num_channels] (λ _ _, vzero);
    mret {| num_groups := num_groups; num_channels := num_channels;
            gn_eps := eps; gn_weight := w; gn_bias := b |}.

Definition GroupNorm_forward (self : GroupNorm) (x : loc) : M loc :=
  F_group_norm x (num_groups self) (gn_weight self) (gn_bias self)
               (gn_eps self).

(** The activation overwrites its argument and returns it. *)
Definition ReLU_forward (x : loc) : M loc :=
  xv ← load x; store_at x (relu_val xv);; mret x.

Definition MaxPool3d_forward (k stride padding : Z) (x : loc) : M loc :=
  xv ← load x; r ← lift (max_pool3d_val xv k stride padding); alloc r.

(** ** PreActBottleneck_3d *)

Record PreActBottleneck_3d := {
  gn1 : GroupNorm;
  conv1 : StdConv3d;
  gn2 : GroupNorm;
  conv2 : StdConv3d;
  gn3 : GroupNorm;
  conv3 : StdConv3d;
  downsample : option StdConv3d;
  gn_proj : option GroupNorm
}.

(** [a or d] on an optional integer: [None] and [0] are falsy. *)
Definition py_or (a : option Z) (d : Z) : Z :=
  match a with
  | Some v => if v =? 0 then d else v
  | None => d
  end.

(** [PreActBottleneck_3d.__init__] (lines 42-58); the modules are built in
    the order of the assignments, [downsample] and [gn_proj] only when the
    stride or the channel count changes. *)
Definition PreActBottleneck_3d_init (cin : Z) (cout cmid : option Z)
    (stride : Z) : M PreActBottleneck_3d :=
  let cout := py_or cout cin in
  let cmid := py_or cmid (cout / 4) in
  gn1 ← GroupNorm_init 32 cmid (1 # 1000000)%Q;
  conv1 ← conv1x1_3d cin cmid 1 false;
  gn2 ← GroupNorm_init 32 cmid (1 # 1000000)%Q;
  conv2 ← conv3x3_3d cmid cmid stride 1 false;
  gn3 ← GroupNorm_init 32 cout (1 # 1000000)%Q;
  conv3 ← conv1x1_3d cmid cout 1 false;
  if negb (stride =? 1) || negb (cin =? cout) then
    downsample ← conv1x1_3d cin cout stride false;
    gn_proj ← GroupNorm_init cout cout (1 # 100000)%Q;
    mret {| gn1 := gn1; conv1 := conv1; gn2 := gn2; conv2 := conv2;
            gn3 := gn3; conv3 := conv3;
            downsample := Some downsample; gn_proj := Some gn_proj |}
  else
    mret {| gn1 := gn1; conv1 := conv1; gn2 := gn2; conv2 := conv2;
            gn3 := gn3; conv3 := conv3;
            downsample := None; gn_proj := None |}.

(** [PreActBottleneck_3d.forward] (lines 60-74); [hasattr(self,
    'downsample')] is the presence of the optional field. *)
Definition PreActBottleneck_3d_forward (self : PreActBottleneck_3d) (x : loc)
  : M loc :=
  residual ← match downsample self with
             | Some ds =>
                 r ← StdConv3d_forward ds x;
                 match gn_proj self with
                 | Some g => GroupNorm_forward g r
                 | None => raise AttributeError
                 end
             | None => mret x
             end;
  y ← StdConv3d_forward (conv1 self) x;
  y ← GroupNorm_forward (gn1 self) y;
  y ← ReLU_forward y;
  y ← StdConv3d_forward (conv2 self) y;
  y ← GroupNorm_forward (gn2 self) y;
  y ← ReLU_forward y;
  y ← StdConv3d_forward (conv3 self) y;
  y ← GroupNorm_forward (gn3 self) y;
  y ← torch_add residual y;
  ReLU_forward y.

(** nn.Sequential of bottleneck units. *)
Fixpoint Sequential_forward (units : list PreActBottleneck_3d) (x : loc)
  : M loc :=
  match units with
  | [] => mret x
  | u :: units' => y ← PreActBottleneck_3d_forward u x;
                   Sequential_forward units' y
  end.

(** ** ResNetV2_3D *)

Record ResNetV2_3D := {
  width : Z;
  root_conv : StdConv3d;
  root_gn : GroupNorm;
  body : list (list PreActBottleneck_3d)
}.

(** [int(q)] truncates towards zero. *)
Definition py_int (q : Q) : Z := Z.quot (Qnum q) (Z.pos (Qden q)).

(** One block of the body: [unit1], then [unit{i}] for [i] in
    [range(2, n + 1)], where [n] is read from [block_units] once the
    first unit is built. *)
Definition make_block (block_units : list Z) (k : nat)
    (first : M PreActBottleneck_3d) (next : M PreActBottleneck_3d)
  : M (list PreActBottleneck_3d) :=
  unit1 ← first;
  n ← lift (index block_units k);
  units ← mapM (λ _ : Z, next) (seqZ 2 (n + 1 - 2));
  mret (unit1 :: units).

(** [ResNetV2_3D.__init__] (lines 80-105). *)
Definition ResNetV2_3D_init (block_units : list Z) (width_factor : Q)
    (cin : Z) : M ResNetV2_3D :=
  let width := py_int (64 * width_factor)%Q in
  conv ← StdConv3d_init cin width 7 2 3 false 1;
  gn ← GroupNorm_init 32 width (1 # 1000000)%Q;
  block1 ← make_block block_units 0
    (PreActBottleneck_3d_init width (Some (width * 4)) (Some width) 1)
    (PreActBottleneck_3d_init (width * 4) (Some (width * 4)) (Some width) 1);
  block2 ← make_block block_units 1
    (PreActBottleneck_3d_init (width * 4) (Some (width * 8))
       (Some (width * 2)) 2)
    (PreActBottleneck_3d_init (width * 8) (Some (width * 8))
       (Some (width * 2)) 1);
  block3 ← make_block block_units 2
    (PreActBottleneck_3d_init (width * 8) (Some (width * 16))
       (Some (width * 4)) 2)
    (PreActBottleneck_3d_init (width * 16) (Some (width * 16))
       (Some (width * 4)) 1);
  mret {| width := width; root_conv := conv; root_gn := gn;
          body := [block1; block2; block3] |}.

(** Two one-axis integer tensors paired entry by entry, as the runtime
    pairs them for [!=] and [-]: equal lengths, or one of length 1. *)
Definition pair_up (a b : list Z) : result (list (Z * Z)) :=
  if bool_decide (length a = length b) then Ok (zip a b)
  else match a, b with
       | [x], _ => Ok (zip (replicate (length b) x) b)
       | _, [y] => Ok (zip a (replicate (length a) y))
       | _, _ => Raise RuntimeError
       end.

(** [x.to(torch.int)] on a float: the fraction is dropped. *)
Definition float_to_int (x : float) : Z :=
  match x with
  | Finite m e =>
      let z := if 0 <=? e then m * 2 ^ e else Z.quot m (2 ^ (- e)) in
      if (- 2 ^ 31 <=? z) && (z <? 2 ^ 31) then z else undefined_int x
  | _ => undefined_int x
  end.

(** One entry of [(torch.tensor(shape) / 4 / (i + 1)).floor().to(torch.int)]
    (lines 122-123): the division turns the int64 extent [n] into the
    default dtype, and each quotient is rounded to it. *)
Definition right_size (i n : Z) : Z :=
  let dt := default_dtype in
  let x := float_div dt (float_of_int dt n) (float_of_int dt 4) in
  let x := float_div dt x (float_of_int dt (i + 1)) in
  float_to_int (float_floor x).

(** [ResNetV2_3D.ensure_right_shape] (lines 121-134); [self] is not
    used. *)
Definition ensure_right_shape (x : loc) (b : Z)
    (original_spatial_shape : list Z) (i : Z) : M loc :=
  xv ← load x;
  let right_spatial_shape := right_size i <$> original_spatial_shape in
  let current_spatial_shape := drop 2 (shape xv) in
  ne ← lift (pair_up current_spatial_shape right_spatial_shape);
  if existsb (λ p, negb (p.1 =? p.2)) ne then
    pad ← lift (pair_up right_spatial_shape current_spatial_shape);
    let pad := (λ p, p.1 - p.2) <$> pad in
    if forallb (λ p, (p <=? 3) && (0 <=? p)) pad then
      c ← lift (index (shape xv) 1);
      feat ← torch_zeros (b :: c :: right_spatial_shape) (t_device xv);
      d ← lift (index (shape xv) 2);
      h ← lift (index (shape xv) 3);
      w ← lift (index (shape xv) 4);
      setitem feat d h w x;;
      mret feat
    else raise AssertionError
  else mret x.

(** The loop of [forward] (lines 114-117) over the given indices. *)
Fixpoint body_loop (body : list (list PreActBottleneck_3d)) (indices : list nat)
    (x : loc) (b : Z) (original_spatial_shape : list Z) (features : list loc)
  : M (loc * list loc) :=
  match indices with
  | [] => mret (x, features)
  | i :: indices' =>
      block ← lift (index body i);
      x ← Sequential_forward block x;
      feat ← ensure_right_shape x b original_spatial_shape (Z.of_nat i);
      body_loop body indices' x b original_spatial_shape (features ++ [feat])
  end.

(** [self.root]: the convolution, its normalisation, the activation. *)
Definition root_forward (self : ResNetV2_3D) (x : loc) : M loc :=
  x ← StdConv3d_forward (root_conv self) x;
  x ← GroupNorm_forward (root_gn self) x;
  ReLU_forward x.

(** [ResNetV2_3D.forward] (lines 107-119). *)
Definition ResNetV2_3D_forward (self : ResNetV2_3D) (x : loc)
  : M (loc * list loc) :=
  xv ← load x;
  b ← lift (index (shape xv) 0);
  let original_spatial_shape := drop 2 (shape xv) in
  x ← root_forward self x;
  let features := [x] in
  x ← MaxPool3d_forward 3 2 0 x;
  xf ← body_loop (body self) (seq 0 (length (body self) - 1)) x b
         original_spatial_shape features;
  let x := xf.1 in
  let features := xf.2 in
  block ← lift (index (body self) (length (body self) - 1));
  x ← Sequential_forward block x;
  mret (x, reverse features).

End Model.

(** ** Specification-level definitions *)

Section Spec.
Context `{RT : Runtime}.

Abbreviation store := (list tensor).
Abbreviation loc := nat.

(** The store [σ'] keeps every tensor of [σ] as it is and may hold more. *)
Definition fresh_at (σ : store) (l : loc) (σ' : store) (v : tensor) : Prop :=
  σ `prefix_of` σ' ∧ (length σ ≤ l)%nat ∧ σ' !! l = Some v.

(** The computation [m], run from [σ], fails as [r] fails, or returns an
    answer related to the one of [r]. *)
Definition refines {A B} (m : M A) (σ : store) (r : result B)
    (R : A → store → B → Prop) : Prop :=
  match r with
  | inl e => m σ = inl e
  | inr b => ∃ a σ', m σ = inr (a, σ') ∧ R a σ' b
  end.

(** The computation [m], run from [σ], returns, and [Q] holds of its answer
    and final store. *)
Definition returns {A} (m : M A) (σ : store) (Q : A → store → Prop) : Prop :=
  ∃ a σ', m σ = inr (a, σ') ∧ Q a σ'.

Definition of_kind (v : tensor) (s : list Z) (dt : dtype) (dev : device)
  : Prop :=
  shape v = s ∧ t_dtype v = dt ∧ t_device v = dev.

(** Whatever [m], run from [σ], returns satisfies [Q]. *)
Definition ensures {A} (m : M A) (σ : store) (Q : A → store → Prop) : Prop :=
  ∀ a σ', m σ = inr (a, σ') → Q a σ'.

(** [m] returns from every store. *)
Definition succeeds {A} (m : M A) : Prop :=
  ∀ σ : store, ∃ a σ', m σ = inr (a, σ').

Definition is_tensor (σ : store) (l : loc) (s : list Z) (dt : dtype)
    (dev : device) : Prop :=
  ∃ v, σ !! l = Some v ∧ of_kind v s dt dev.

(** The answer of a layer run from [σ]: a tensor of shape [s], in the
    default dtype and on the CPU, of a store that keeps [σ]. *)
Definition shaped (σ : store) (s : list Z) (l : loc) (σ' : store) : Prop :=
  σ `prefix_of` σ' ∧ is_tensor σ' l s default_dtype cpu.


(** The extent of an axis after a convolution of dilation 1. *)
Definition conv_size (n k s p : Z) : Z := (n + 2 * p - k) / s + 1.

(** *** Weight standardisation, in the words of the specification *)

(** The entries of the output filter [o] of a weight of shape
    [(O, I, kD, kH, kW)]. *)
Definition filter_entries (s : list Z) (o : Z) : list (list Z) :=
  match s with
  | [_; ci; kd; kh; kw] =>
      i ← seqZ 0 ci; d ← seqZ 0 kd; h ← seqZ 0 kh; w ← seqZ 0 kw;
      [[o; i; d; h; w]]
  | _ => []
  end.

Definition filter_size (s : list Z) : Z :=
  match s with
  | [_; ci; kd; kh; kw] => ci * kd * kh * kw
  | _ => 0
  end.

Definition filter_mean (W : tensor) (o : Z) : V :=
  vdiv (t_dtype W)
       (vsum (t_dtype W) (data W <$> filter_entries (shape W) o))
       (v_of_Z (filter_size (shape W))).

(** The biased variance: the squared deviations are divided by the number
    of entries. *)
Definition filter_var (W : tensor) (o : Z) : V :=
  let dt := t_dtype W in
  vdiv dt
    (vsum dt ((λ j, let c := vsub dt (data W j) (filter_mean W o) in
                    vmul dt c c) <$> filter_entries (shape W) o))
    (v_of_Z (filter_size (shape W))).

(** [(W − μ) / sqrt(σ² + 1e-5)] at the entry [idx] of the filter [o]. *)
Definition standardized_entry (W : tensor) (o : Z) (idx : list Z) : V :=
  let dt := t_dtype W in
  vdiv dt (vsub dt (data W idx) (filter_mean W o))
          (vsqrt dt (vadd dt (filter_var W o) (v_of_Q (1 # 100000)%Q))).

Definition is_standardized (W W' : tensor) : Prop :=
  shape W' = shape W ∧ t_dtype W' = t_dtype W ∧ t_device W' = t_device W ∧
  ∀ o i d h w, in_range (shape W) [o; i; d; h; w] →
    data W' [o; i; d; h; w] = standardized_entry W o [o; i; d; h; w].

(** *** The bottleneck unit on values *)

Definition param (σ : store) (l : loc) : result tensor :=
  match σ !! l with Some v => Ok v | None => Raise RuntimeError end.

Definition param_opt (σ : store) (l : option loc) : result (option tensor) :=
  match l with Some b => Some <$> param σ b | None => Ok None end.

(** The weight a StdConv3d convolves with. *)
Definition standardize_val (W : tensor) : result tensor :=
  vm ← var_mean_val W [1; 2; 3; 4]%nat false;
  c ← sub_val W vm.2;
  div_val c (sqrt_val (add_scalar_val vm.1 (1 # 100000)%Q)).

Definition conv_spec (σ : store) (c : StdConv3d) (x : tensor) : result tensor :=
  W ← param σ (weight c);
  b ← param_opt σ (bias c);
  W' ← standardize_val W;
  conv3d_val x W' b (stride c) (padding c) (dilation c) (groups c).

Definition gn_spec (σ : store) (g : GroupNorm) (x : tensor) : result tensor :=
  w ← param σ (gn_weight g);
  b ← param σ (gn_bias g);
  group_norm_val x (num_groups g) w b (gn_eps g).

Definition residual_spec (σ : store) (u : PreActBottleneck_3d) (x : tensor)
  : result tensor :=
  match downsample u with
  | Some ds =>
      r ← conv_spec σ ds x;
      match gn_proj u with
      | Some g => gn_spec σ g r
      | None => Raise AttributeError
      end
  | None => Ok x
  end.

(** activation(groupnorm(conv(x))) *)
Definition conv_gn_relu_spec (σ : store) (c : StdConv3d) (g : GroupNorm)
    (x : tensor) : result tensor :=
  y ← conv_spec σ c x;
  y ← gn_spec σ g y;
  Ok (relu_val y).

Definition unit_branch_spec (σ : store) (u : PreActBottleneck_3d) (x : tensor)
  : result tensor :=
  y ← conv_gn_relu_spec σ (conv1 u) (gn1 u) x;
  y ← conv_gn_relu_spec σ (conv2 u) (gn2 u) y;
  y ← conv_spec σ (conv3 u) y;
  gn_spec σ (gn3 u) y.

Definition bottleneck_spec (σ : store) (u : PreActBottleneck_3d) (x : tensor)
  : result tensor :=
  residual ← residual_spec σ u x;
  y ← unit_branch_spec σ u x;
  s ← add_val residual y;
  Ok (relu_val s).

(** The parameters of a module are in the store. *)
Definition conv_alloc (σ : store) (c : StdConv3d) : Prop :=
  is_Some (σ !! weight c) ∧ from_option (λ b, is_Some (σ !! b)) True (bias c).

Definition gn_alloc (σ : store) (g : GroupNorm) : Prop :=
  is_Some (σ !! gn_weight g) ∧ is_Some (σ !! gn_bias g).

Definition unit_alloc (σ : store) (u : PreActBottleneck_3d) : Prop :=
  gn_alloc σ (gn1 u) ∧ conv_alloc σ (conv1 u) ∧
  gn_alloc σ (gn2 u) ∧ conv_alloc σ (conv2 u) ∧
  gn_alloc σ (gn3 u) ∧ conv_alloc σ (conv3 u) ∧
  from_option (conv_alloc σ) True (downsample u) ∧
  from_option (gn_alloc σ) True (gn_proj u).

(** *** Well-formed modules *)

Definition unit_cin (u : PreActBottleneck_3d) : Z := in_channels (conv1 u).
Definition unit_cmid (u : PreActBottleneck_3d) : Z := out_channels (conv1 u).
Definition unit_cout (u : PreActBottleneck_3d) : Z := out_channels (conv3 u).
Definition unit_stride (u : PreActBottleneck_3d) : Z := stride (conv2 u).

(** A bias-free convolution [cin → cout] whose weight is in the store. *)
Definition conv_ok (σ : store) (c : StdConv3d) (cin cout k s p : Z) : Prop :=
  in_channels c = cin ∧ out_channels c = cout ∧ kernel_size c = k ∧
  stride c = s ∧ padding c = p ∧ dilation c = 1 ∧ groups c = 1 ∧
  bias c = None ∧
  is_tensor σ (weight c) [cout; cin; k; k; k] default_dtype cpu.

Definition gn_ok (σ : store) (g : GroupNorm) (G C : Z) : Prop :=
  num_groups g = G ∧ num_channels g = C ∧
  is_tensor σ (gn_weight g) [C] default_dtype cpu ∧
  is_tensor σ (gn_bias g) [C] default_dtype cpu.

Definition unit_ok (σ : store) (u : PreActBottleneck_3d)
    (cin cout cmid s : Z) : Prop :=
  gn_ok σ (gn1 u) 32 cmid ∧ conv_ok σ (conv1 u) cin cmid 1 1 0 ∧
  gn_ok σ (gn2 u) 32 cmid ∧ conv_ok σ (conv2 u) cmid cmid 3 s 1 ∧
  gn_ok σ (gn3 u) 32 cout ∧ conv_ok σ (conv3 u) cmid cout 1 1 0 ∧
  (if bool_decide (s ≠ 1 ∨ cin ≠ cout)
   then ∃ ds g, downsample u = Some ds ∧ gn_proj u = Some g ∧
                conv_ok σ ds cin cout 1 s 0 ∧ gn_ok σ g cout cout
   else downsample u = None ∧ gn_proj u = None).

(** A block: the first unit changes the width and carries the stride, the
    others keep the width with stride 1. *)
Definition block_ok (σ : store) (units : list PreActBottleneck_3d)
    (n : nat) (cin cout cmid s : Z) : Prop :=
  ∃ u rest, units = u :: rest ∧ length units = n ∧
    unit_ok σ u cin cout cmid s ∧
    Forall (λ u', unit_ok σ u' cout cout cmid 1) rest.

(** The layout of a block: its length, the channels and stride of its
    first unit, and those of the following units. *)
Definition block_layout (units : list PreActBottleneck_3d) (n : nat)
    (cin cout cmid s : Z) : Prop :=
  length units = n ∧
  ∃ u rest, units = u :: rest ∧
    unit_cin u = cin ∧ unit_cout u = cout ∧ unit_cmid u = cmid ∧
    unit_stride u = s ∧
    Forall (λ u', unit_cin u' = cout ∧ unit_cout u' = cout ∧
                  unit_cmid u' = cmid ∧ unit_stride u' = 1) rest.

(** The number of units of a block built from the count [n]. *)
Definition block_length (n : Z) : nat := Z.to_nat (Z.max 1 n).

Definition net_ok (σ : store) (net : ResNetV2_3D) (b1 b2 b3 : Z)
    (w cin : Z) : Prop :=
  width net = w ∧
  conv_ok σ (root_conv net) cin w 7 2 3 ∧
  gn_ok σ (root_gn net) 32 w ∧
  ∃ s1 s2 s3, body net = [s1; s2; s3] ∧
    block_ok σ s1 (block_length b1) w (w * 4) w 1 ∧
    block_ok σ s2 (block_length b2) (w * 4) (w * 8) (w * 2) 2 ∧
    block_ok σ s3 (block_length b3) (w * 8) (w * 16) (w * 4) 2.

(** *** Shape reconciliation *)

(** [r] is [x] at the low-index corner of a tensor of zeros of shape [s],
    in the default dtype and on the device of [x]. *)
Definition is_padded (x : tensor) (s : list Z) (r : tensor) : Prop :=
  shape r = s ∧ t_dtype r = default_dtype ∧ t_device r = t_device x ∧
  ∀ idx, data r idx = if in_rangeb (shape x) idx
                      then convert (t_dtype x) default_dtype (data x idx)
                      else vzero.

(** The difference between the right extent and the current one is
    tolerated. *)
Definition pad_ok (right current : Z) : Prop := 0 ≤ right - current ≤ 3.

(** [pad = right_spatial_shape - current_spatial_shape], axis by axis. *)
Definition pads (i : Z) (original current : list Z) : list Z :=
  zip_with (λ n c, right_size i n - c) original current.

(** *** Spatial sizes along the backbone *)

(** After the root convolution (kernel 7, stride 2, padding 3). *)
Definition root_size (n : Z) : Z := (n + 2 * 3 - 7) / 2 + 1.
(** After the max-pooling (kernel 3, stride 2, no padding). *)
Definition pool_size (n : Z) : Z := (n - 3) / 2 + 1.
(** After a block of stride 2. *)
Definition half_size (n : Z) : Z := (n - 1) / 2 + 1.

Definition stage1_size (n : Z) : Z := pool_size (root_size n).
Definition stage2_size (n : Z) : Z := half_size (stage1_size n).
Definition stage3_size (n : Z) : Z := half_size (stage2_size n).

(** *** The forward pass of a three-block backbone, step by step *)

(** The tensors met along the forward pass. *)
Record trace := Trace {
  tr_root : loc;
  tr_pool : loc;
  tr_stage1 : loc;
  tr_feat1 : loc;
  tr_stage2 : loc;
  tr_feat2 : loc;
  tr_out : loc
}.

(** [ResNetV2_3D.forward] with the loop over the first two blocks unrolled,
    returning every intermediate tensor. *)
Definition forward_steps (self : ResNetV2_3D)
    (s1 s2 s3 : list PreActBottleneck_3d) (x : loc) (b : Z)
    (original_spatial_shape : list Z) : M trace :=
  x0 ← root_forward self x;
  xp ← MaxPool3d_forward 3 2 0 x0;
  x1 ← Sequential_forward s1 xp;
  f1 ← ensure_right_shape x1 b original_spatial_shape 0;
  x2 ← Sequential_forward s2 x1;
  f2 ← ensure_right_shape x2 b original_spatial_shape 1;
  y ← Sequential_forward s3 x2;
  mret (Trace x0 xp x1 f1 x2 f2 y).

(** The forward pass run from [σ] goes through the tensors of [tr] and
    ends in [σ']. *)
Definition runs_as (self : ResNetV2_3D) (s1 s2 s3 : list PreActBottleneck_3d)
    (x : loc) (b : Z) (orig : list Z) (σ : store) (tr : trace) (σ' : store)
  : Prop :=
  ∃ σa σb σc σd σe σf : store,
    root_forward self x σ = inr (tr_root tr, σa) ∧
    MaxPool3d_forward 3 2 0 (tr_root tr) σa = inr (tr_pool tr, σb) ∧
    Sequential_forward s1 (tr_pool tr) σb = inr (tr_stage1 tr, σc) ∧
    ensure_right_shape (tr_stage1 tr) b orig 0 σc = inr (tr_feat1 tr, σd) ∧
    Sequential_forward s2 (tr_stage1 tr) σd = inr (tr_stage2 tr, σe) ∧
    ensure_right_shape (tr_stage2 tr) b orig 1 σe = inr (tr_feat2 tr, σf) ∧
    Sequential_forward s3 (tr_stage2 tr) σf = inr (tr_out tr, σ').

(** An extent the shape arithmetic of [ensure_right_shape] is exact on:
    the default dtype holds it without rounding, and its quarter fits
    int32. *)
Definition exact_extent (n : Z) : Prop :=
  n < 2 ^ significand_bits default_dtype ∧ n < 2 ^ 33.

(** An axis of the input the forward pass accepts. *)
Definition axis_ok (n : Z) : Prop := 8 ≤ n ∧ n mod 8 ≤ 4.

(** What a successful forward pass from [σ] leaves: the shapes of the
    tensors it returns, and which snapshots are the block outputs
    themselves. *)
Definition forward_post (σ : store) (B w D H W : Z) (tr : trace)
    (σ' : store) : Prop :=
  σ `prefix_of` σ' ∧
  is_tensor σ' (tr_root tr) [B; w; root_size D; root_size H; root_size W]
            default_dtype cpu ∧
  is_tensor σ' (tr_stage1 tr)
            [B; w * 4; stage1_size D; stage1_size H; stage1_size W]
            default_dtype cpu ∧
  is_tensor σ' (tr_feat1 tr) [B; w * 4; D / 4; H / 4; W / 4]
            default_dtype cpu ∧
  is_tensor σ' (tr_feat2 tr) [B; w * 8; D / 8; H / 8; W / 8]
            default_dtype cpu ∧
  is_tensor σ' (tr_out tr)
            [B; w * 16; stage3_size D; stage3_size H; stage3_size W]
            default_dtype cpu ∧
  tr_feat2 tr = tr_stage2 tr ∧
  (if bool_decide (D mod 4 = 0 ∨ H mod 4 = 0 ∨ W mod 4 = 0)
   then tr_feat1 tr ≠ tr_stage1 tr ∧
        ∃ x1 r, σ' !! tr_stage1 tr = Some x1 ∧ σ' !! tr_feat1 tr = Some r ∧
                is_padded x1 [B; w * 4; D / 4; H / 4; W / 4] r
   else tr_feat1 tr = tr_stage1 tr).

End Spec.

(** A runtime over the integers, to run the model on concrete inputs. *)
Definition Zruntime : Runtime := {|
  V := Z; default_dtype := float32; vzero := 0; vone := 1;
  v_of_Z := λ z, z; v_of_Q := Qfloor;
  vadd := λ _, Z.add; vsub := λ _, Z.sub; vmul := λ _, Z.mul;
  vdiv := λ _, Z.div; vsqrt := λ _, Z.sqrt; vmax := Z.max;
  vcast := λ _ v, v;
  undefined_int := λ _, - 2 ^ 31;
  kaiming_uniform := λ seed _ _, Z.of_nat seed;
  conv3d_kernel := λ _ _ _ _ _ _ _ _ _ _, 0;
  group_norm_kernel := λ _ _ _ _ _ _ _, 0;
  max_pool3d_kernel := λ _ _ _ _ _ _, 0
|}.

Section Demo.
#[local] Existing Instance Zruntime.

(** A tensor of zeros of the integer runtime, as an input. *)
Definition demo_input (s : list Z) : tensor :=
  Tensor s float32 cpu (λ _, 0).

(** A 1×1×1 convolution from one channel to two, whose weight is the
    tensor at location 1. *)
Definition demo_conv : StdConv3d :=
  {| in_channels := 1; out_channels := 2; kernel_size := 1; stride := 1;
     padding := 0; dilation := 1; groups := 1; weight := 1%nat;
     bias := None |}.

Definition demo_weight : tensor :=
  Tensor [2; 1; 1; 1; 1] float32 cpu
          (λ idx, match idx with o :: _ => 3 * o + 1 | [] => 0 end).

Definition demo_array (s : list Z) : ndarray :=
  NDArray s float32 (λ idx, foldl (λ acc i, 10 * acc + i) 0 idx).

(** The backbone built in the empty store and run on [demo_input s]: the
    outcome of the construction, then the outcome of the forward pass with
    the shapes of the primary output and of the skip features. *)
Definition demo_forward (block_units : list Z) (width_factor : Q) (cin : Z)
    (s : list Z)
  : result (result (option (list Z) * list (option (list Z)))) :=
  match ResNetV2_3D_init block_units width_factor cin [] with
  | inl e => inl e
  | inr (net, σ1) =>
      Ok (match ResNetV2_3D_forward net (length σ1) (σ1 ++ [demo_input s]) with
          | inl e => inl e
          | inr ((y, fs), σ') =>
              Ok (shape <$> σ' !! y, (λ f, shape <$> σ' !! f) <$> fs)
          end)
  end.

(** The same run step by step: the trace, and the shapes of the output of
    the first block and of its snapshot. *)
Definition demo_steps (block_units : list Z) (width_factor : Q) (cin : Z)
    (s : list Z)
  : result (result (trace * option (list Z) * option (list Z))) :=
  match ResNetV2_3D_init block_units width_factor cin [] with
  | inl e => inl e
  | inr (net, σ1) =>
      match body net, s with
      | [s1; s2; s3], b :: _ :: orig =>
          Ok (match forward_steps net s1 s2 s3 (length σ1) b orig
                      (σ1 ++ [demo_input s]) with
              | inl e => inl e
              | inr (tr, σ') =>
                  Ok (tr, shape <$> σ' !! tr_stage1 tr,
                      shape <$> σ' !! tr_feat1 tr)
              end)
      | _, _ => Raise IndexError
      end
  end.

(** The layout of the backbone built in the empty store: for every unit of
    every block, [(cin, cout, cmid, stride)]. *)
Definition demo_layout (block_units : list Z) (width_factor : Q) (cin : Z)
  : result (list (list (Z * Z * Z * Z))) :=
  match ResNetV2_3D_init block_units width_factor cin [] with
  | inl e => inl e
  | inr (net, _) =>
      Ok (fmap (M := list)
            (fmap (M := list)
               (λ u, (unit_cin u, unit_cout u, unit_cmid u, unit_stride u)))
            (body net))
  end.

End Demo.

(** ** Tactics *)

(** Arithmetic with divisions and remainders by constants. *)
Ltac div_lia := Z.div_mod_to_equations; lia.

(** A store is a prefix of a later one, along the hypotheses. *)
Ltac prefix_chain :=
  solve [ reflexivity | eassumption
        | match goal with
          | H : ?a `prefix_of` _ |- ?a `prefix_of` _ =>
              etrans; [exact H | prefix_chain]
          end ].

Ltac lookup_chain :=
  match goal with
  | H : ?s !! ?l = Some _ |- _ !! ?l = Some _ =>
      solve [ exact H | eapply prefix_lookup_Some; [exact H | prefix_chain] ]
  end.

Ltac open_fresh :=
  repeat match goal with
         | H : fresh_at _ _ _ _ |- _ =>
             let P := fresh "P" in let L := fresh "L" in let E := fresh "E" in
             destruct H as (P & L & E)
         end.

(** * Verification *)

Section Proofs.
Context `{RT : Runtime}.

Abbreviation store := (list tensor).
Abbreviation loc := nat.

(** ** Running the store monad *)

Lemma bind_run {A B} (m : M A) (f : A → M B) (σ : store) :
  (m ≫= f) σ = match m σ with inl e => inl e | inr (a, σ') => f a σ' end.
Proof. reflexivity. Qed.

Lemma bind_ok {A B} (m : M A) (f : A → M B) (σ σ' : store) a :
  m σ = inr (a, σ') → (m ≫= f) σ = f a σ'.
Proof. intros E. rewrite bind_run, E. reflexivity. Qed.

Lemma bind_err {A B} (m : M A) (f : A → M B) (σ : store) e :
  m σ = inl e → (m ≫= f) σ = inl e.
Proof. intros E. rewrite bind_run, E. reflexivity. Qed.

Lemma load_ok (σ : store) l v : σ !! l = Some v → load l σ = inr (v, σ).
Proof. unfold load. intros ->. reflexivity. Qed.

Lemma lookup_snoc (σ : store) v : (σ ++ [v]) !! length σ = Some v.
Proof. rewrite lookup_app_r by lia. rewrite Nat.sub_diag. reflexivity. Qed.

Lemma insert_snoc (σ : store) v v' : <[length σ := v']> (σ ++ [v]) = σ ++ [v'].
Proof.
  rewrite insert_app_r_alt by lia. rewrite Nat.sub_diag. reflexivity.
Qed.

Lemma fresh_at_alloc (σ : store) v : fresh_at σ (length σ) (σ ++ [v]) v.
Proof.
  split; [by apply prefix_app_r|]. split; [lia|]. apply lookup_snoc.
Qed.

Lemma fresh_at_trans (σ0 σ σ' : store) l v :
  σ0 `prefix_of` σ → fresh_at σ l σ' v → fresh_at σ0 l σ' v.
Proof.
  intros P (P' & L & E). split; [by etrans|]. split; [|done].
  apply prefix_length in P. lia.
Qed.

(** Overwriting a tensor allocated after [σ] keeps [σ] as it is. *)
Lemma fresh_at_insert (σ σ' : store) l v v' :
  fresh_at σ l σ' v → fresh_at σ l (<[l := v']> σ') v'.
Proof.
  intros ([k ->] & L & E). split; [|split; [done|]].
  - rewrite insert_app_r_alt by done. by apply prefix_app_r.
  - apply list_lookup_insert_eq. by eapply lookup_lt_Some.
Qed.

Lemma refines_bind {A B A' B'} (m : M A) (f : A → M B) (σ : store)
    (r : result A') (g : A' → result B') R R' :
  refines m σ r R →
  (∀ a σ' b, R a σ' b → refines (f a) σ' (g b) R') →
  refines (m ≫= f) σ (r ≫= g) R'.
Proof.
  intros Hm Hf. destruct r as [e|b]; simpl in *.
  - by apply bind_err.
  - destruct Hm as (a & σ' & E & HR).
    specialize (Hf a σ' b HR). unfold refines in *.
    destruct (g b); [by rewrite (bind_ok _ _ _ _ _ E)|].
    destruct Hf as (a' & σ'' & E' & HR').
    exists a', σ''. by rewrite (bind_ok _ _ _ _ _ E).
Qed.

Lemma refines_mono {A B} (m : M A) (σ : store) (r : result B)
    (R R' : A → store → B → Prop) :
  refines m σ r R → (∀ a σ' b, R a σ' b → R' a σ' b) → refines m σ r R'.
Proof.
  destruct r; simpl; [done|]. intros (a & σ' & E & HR) H. eauto.
Qed.

Lemma returns_bind {A B} (m : M A) (f : A → M B) (σ : store) Q :
  returns m σ (λ a σ', returns (f a) σ' Q) → returns (m ≫= f) σ Q.
Proof.
  intros (a & σ' & E & a' & σ'' & E' & HQ).
  exists a', σ''. by rewrite (bind_ok _ _ _ _ _ E).
Qed.

Lemma returns_mono {A} (m : M A) (σ : store) (Q Q' : A → store → Prop) :
  returns m σ Q → (∀ a σ', Q a σ' → Q' a σ') → returns m σ Q'.
Proof. intros (a & σ' & E & HQ) H. exists a, σ'. eauto. Qed.

End Proofs.
Section Refinement.
Context `{RT : Runtime}.

Abbreviation store := (list tensor).
Abbreviation loc := nat.

(** ** The runtime operations refine their value-level counterparts *)

Lemma res_bind_assoc {A B C} (r : result A) (f : A → result B)
    (g : B → result C) :
  (r ≫= f) ≫= g = r ≫= (λ a, f a ≫= g).
Proof. by destruct r. Qed.

Lemma param_ok (σ : store) l v : σ !! l = Some v → param σ l = Ok v.
Proof. unfold param. by intros ->. Qed.

Lemma refines_eq {A B} (m m' : M A) (σ σ' : store) (r : result B) R :
  m σ = m' σ' → refines m' σ' r R → refines m σ r R.
Proof. unfold refines. by intros ->. Qed.

Lemma refines_load {A B} (k : tensor → M A) (σ : store) l v (r : result B) R :
  σ !! l = Some v → refines (k v) σ r R → refines (load l ≫= k) σ r R.
Proof.
  intros E. apply refines_eq. by rewrite bind_run, (load_ok _ _ _ E).
Qed.

Lemma lift_alloc_refines (r : result tensor) (σ : store) :
  refines (lift r ≫= alloc) σ r (fresh_at σ).
Proof.
  destruct r as [e|v]; simpl; [done|].
  eexists _, _. split; [reflexivity|]. apply fresh_at_alloc.
Qed.

Lemma torch_binop_refines f a b va vb (σ : store) :
  σ !! a = Some va → σ !! b = Some vb →
  refines (torch_binop f a b) σ (f va vb) (fresh_at σ).
Proof.
  intros Ha Hb. unfold torch_binop.
  do 2 (eapply refines_load; [eassumption|]).
  apply lift_alloc_refines.
Qed.

Lemma load_opt_ok (σ : store) l bv :
  param_opt σ l = Ok bv → load_opt l σ = inr (bv, σ).
Proof.
  destruct l as [b|]; simpl.
  - unfold param, load. cbv [fmap M_fmap]. destruct (σ !! b); [|done].
    simpl. by intros [= <-].
  - by intros [= <-].
Qed.

Lemma F_conv3d_refines x w b xv wv bv s p d g (σ : store) :
  σ !! x = Some xv → σ !! w = Some wv → param_opt σ b = Ok bv →
  refines (F_conv3d x w b s p d g) σ (conv3d_val xv wv bv s p d g)
          (fresh_at σ).
Proof.
  intros Hx Hw Hb. unfold F_conv3d.
  do 2 (eapply refines_load; [eassumption|]).
  eapply refines_eq; [by rewrite bind_run, (load_opt_ok _ _ _ Hb)|].
  apply lift_alloc_refines.
Qed.

Lemma F_group_norm_refines x w b xv wv bv G eps (σ : store) :
  σ !! x = Some xv → σ !! w = Some wv → σ !! b = Some bv →
  refines (F_group_norm x G w b eps) σ (group_norm_val xv G wv bv eps)
          (fresh_at σ).
Proof.
  intros Hx Hw Hb. unfold F_group_norm.
  do 3 (eapply refines_load; [eassumption|]).
  apply lift_alloc_refines.
Qed.

Lemma MaxPool3d_refines x xv k s p (σ : store) :
  σ !! x = Some xv →
  refines (MaxPool3d_forward k s p x) σ (max_pool3d_val xv k s p) (fresh_at σ).
Proof.
  intros Hx. unfold MaxPool3d_forward.
  eapply refines_load; [eassumption|]. apply lift_alloc_refines.
Qed.

Lemma torch_var_mean_refines w wv dims u (σ : store) :
  σ !! w = Some wv →
  refines (torch_var_mean w dims u) σ (var_mean_val wv dims u)
    (λ lm σ' vm, σ `prefix_of` σ' ∧
                 σ' !! lm.1 = Some vm.1 ∧ σ' !! lm.2 = Some vm.2).
Proof.
  intros Hw. unfold torch_var_mean.
  eapply refines_load; [eassumption|].
  destruct (var_mean_val wv dims u) as [e|[v m]]; simpl; [done|].
  eexists _, _. split; [reflexivity|]. simpl. split; [|split].
  - exists [v; m]. by rewrite <- app_assoc.
  - rewrite lookup_app_l by (rewrite length_app; simpl; lia). apply lookup_snoc.
  - replace (S (length σ)) with (length (σ ++ [v])) by (rewrite length_app; simpl; lia).
    apply lookup_snoc.
Qed.

(** The in-place activation, on a tensor allocated after [σ0]. *)
Lemma ReLU_step {A B} (k : loc → M A) (σ0 σ : store) l v (r : result B) R :
  fresh_at σ0 l σ v →
  (∀ σ', fresh_at σ0 l σ' (relu_val v) → refines (k l) σ' r R) →
  refines (ReLU_forward l ≫= k) σ r R.
Proof.
  intros F Hk. unfold ReLU_forward.
  assert (H := Hk _ (fresh_at_insert _ _ _ _ (relu_val v) F)).
  destruct F as (_ & _ & E).
  eapply refines_eq; [|exact H].
  by rewrite bind_run, bind_run, (load_ok _ _ _ E).
Qed.

Lemma StdConv3d_forward_refines c x xv W bv (σ : store) :
  σ !! x = Some xv → σ !! weight c = Some W → param_opt σ (bias c) = Ok bv →
  refines (StdConv3d_forward c x) σ
    (W' ← standardize_val W;
     conv3d_val xv W' bv (stride c) (padding c) (dilation c) (groups c))
    (fresh_at σ).
Proof.
  intros Hx Hw Hb. unfold StdConv3d_forward, standardize_val.
  rewrite res_bind_assoc.
  eapply refines_bind; [by apply torch_var_mean_refines|].
  intros [lv lm] σ1 [v m] (P1 & Ev & Em). simpl in *.
  rewrite res_bind_assoc.
  eapply refines_bind.
  { apply torch_binop_refines; [lookup_chain|exact Em]. }
  intros lc σ2 cv F2. open_fresh.
  assert (σ2 !! lv = Some v) as Ev2 by lookup_chain.
  set (ev := add_scalar_val v _).
  set (σ3 := σ2 ++ [ev]).
  set (σ4 := σ3 ++ [sqrt_val ev]).
  assert (σ2 `prefix_of` σ3) as P3 by (by apply prefix_app_r).
  assert (σ3 `prefix_of` σ4) as P4 by (by apply prefix_app_r).
  assert (σ4 !! length σ3 = Some (sqrt_val ev)) as Es by apply lookup_snoc.
  eapply (refines_eq _ (torch_div lc (length σ3) ≫= _) _ σ4
            (div_val cv (sqrt_val ev) ≫= _)).
  { unfold torch_add_scalar, torch_sqrt.
    rewrite bind_run, bind_run, (load_ok _ _ _ Ev2). simpl.
    rewrite bind_run, bind_run.
    fold ev. fold σ3.
    by rewrite (load_ok σ3 (length σ2) ev) by apply lookup_snoc. }
  eapply refines_bind.
  { unfold torch_div. apply torch_binop_refines; [lookup_chain|exact Es]. }
  intros lw σ5 W' F5. open_fresh.
  eapply refines_mono.
  { apply F_conv3d_refines; [lookup_chain|eassumption|].
    destruct (bias c) as [b|]; simpl in *; [|done].
    unfold param in *. destruct (σ !! b) eqn:Eb; [|done].
    assert (σ5 !! b = Some t) as -> by lookup_chain. done. }
  intros a σ6 out F. eapply fresh_at_trans; [|exact F]. prefix_chain.
Qed.

End Refinement.
Section UnitRefinement.
Context `{RT : Runtime}.

Abbreviation store := (list tensor).
Abbreviation loc := nat.

Lemma conv_forward_refines (σ0 σ : store) c x xv :
  σ0 `prefix_of` σ → conv_alloc σ0 c → σ !! x = Some xv →
  refines (StdConv3d_forward c x) σ (conv_spec σ0 c xv) (fresh_at σ).
Proof.
  intros P [[W EW] Hb] Hx. unfold conv_spec.
  rewrite (param_ok _ _ _ EW). simpl.
  assert (∃ bv, param_opt σ0 (bias c) = Ok bv ∧ param_opt σ (bias c) = Ok bv)
    as (bv & -> & Eb).
  { destruct (bias c) as [b|]; simpl in *; [|by eexists].
    destruct Hb as [v Ev]. exists (Some v).
    rewrite (param_ok _ _ _ Ev).
    by rewrite (param_ok σ b v) by (by eapply prefix_lookup_Some). }
  simpl. apply StdConv3d_forward_refines; [done| |done].
  by eapply prefix_lookup_Some.
Qed.

Lemma gn_forward_refines (σ0 σ : store) g x xv :
  σ0 `prefix_of` σ → gn_alloc σ0 g → σ !! x = Some xv →
  refines (GroupNorm_forward g x) σ (gn_spec σ0 g xv) (fresh_at σ).
Proof.
  intros P [[w Ew] [b Eb]] Hx. unfold gn_spec, GroupNorm_forward.
  rewrite (param_ok _ _ _ Ew), (param_ok _ _ _ Eb). simpl.
  apply F_group_norm_refines; [done| |]; by eapply prefix_lookup_Some.
Qed.

Lemma bind3_assoc {A B C D} (m : M A) (f : A → M B) (g : B → M C)
    (k : C → M D) (σ : store) :
  (a ← m; b ← f a; c ← g b; k c) σ = ((a ← m; b ← f a; g b) ≫= k) σ.
Proof.
  rewrite !bind_run. destruct (m σ) as [|[a σ1]]; [done|].
  rewrite !bind_run. by destruct (f a σ1) as [|[b σ2]].
Qed.

Lemma bind_mret_run {A} (m : M A) (σ : store) : (m ≫= mret) σ = m σ.
Proof. rewrite bind_run. by destruct (m σ) as [|[a σ1]]. Qed.

(** A convolution, its normalisation and the activation. *)
Lemma conv_gn_relu_refines (σ0 σ : store) c g x xv :
  σ0 `prefix_of` σ → conv_alloc σ0 c → gn_alloc σ0 g → σ !! x = Some xv →
  refines (y ← StdConv3d_forward c x; y ← GroupNorm_forward g y;
           ReLU_forward y) σ
          (conv_gn_relu_spec σ0 c g xv) (fresh_at σ).
Proof.
  intros P Hc Hg Hx. unfold conv_gn_relu_spec.
  eapply refines_bind; [by apply conv_forward_refines|].
  intros l1 σ1 v1 F1. open_fresh.
  eapply (refines_bind _ _ _ _ _ (fresh_at σ1));
    [apply gn_forward_refines; [prefix_chain|done..]|].
  intros l2 σ2 v2 F2.
  eapply refines_eq; [symmetry; apply bind_mret_run|].
  eapply ReLU_step; [exact F2|]. intros σ3 F3.
  eexists _, _. split; [reflexivity|].
  eapply fresh_at_trans; [|exact F3]. done.
Qed.

Lemma PreActBottleneck_3d_forward_refines (σ0 σ : store) u x xv :
  σ0 `prefix_of` σ → unit_alloc σ0 u → σ !! x = Some xv →
  refines (PreActBottleneck_3d_forward u x) σ (bottleneck_spec σ0 u xv)
          (fresh_at σ).
Proof.
  intros P (G1 & C1 & G2 & C2 & G3 & C3 & DS & GP) Hx.
  unfold PreActBottleneck_3d_forward, bottleneck_spec.
  eapply (refines_bind _ _ _ _ _
            (λ l σ' v, σ `prefix_of` σ' ∧ σ' !! l = Some v)).
  { unfold residual_spec. destruct (downsample u) as [ds|]; simpl in *.
    - eapply refines_bind; [by apply conv_forward_refines|].
      intros l1 σ1 v1 F1. open_fresh.
      destruct (gn_proj u) as [g|]; simpl in *; [|done].
      eapply refines_mono; [apply gn_forward_refines; [prefix_chain|done..]|].
      intros l2 σ2 v2 F2. open_fresh. split; [prefix_chain|done].
    - eexists _, _. split; [reflexivity|]. done. }
  intros lr σ1 rv (P1 & Er). unfold unit_branch_spec.
  rewrite !res_bind_assoc.
  eapply refines_eq; [apply bind3_assoc|].
  eapply refines_bind;
    [apply conv_gn_relu_refines; [prefix_chain|done|done|lookup_chain]|].
  intros l2 σ2 v2 F2. open_fresh. rewrite ?res_bind_assoc.
  eapply refines_eq; [apply bind3_assoc|].
  eapply refines_bind;
    [apply conv_gn_relu_refines; [prefix_chain|done|done|lookup_chain]|].
  intros l3 σ3 v3 F3. open_fresh. rewrite ?res_bind_assoc.
  eapply refines_bind; [apply conv_forward_refines; [prefix_chain|done..]|].
  intros l4 σ4 v4 F4. open_fresh. rewrite ?res_bind_assoc.
  eapply refines_bind; [apply gn_forward_refines; [prefix_chain|done..]|].
  intros l5 σ5 v5 F5. open_fresh.
  eapply refines_bind.
  { apply torch_binop_refines; [lookup_chain|done]. }
  intros l6 σ6 v6 F6.
  eapply refines_eq; [symmetry; apply bind_mret_run|].
  eapply ReLU_step; [exact F6|]. intros σ7 F7.
  eexists _, _. split; [reflexivity|].
  eapply fresh_at_trans; [|exact F7]. open_fresh. prefix_chain.
Qed.

End UnitRefinement.
Section Standardisation.
Context `{RT : Runtime}.

(** ** Weight standardisation *)

Lemma promote_idem dt : promote dt dt = dt.
Proof. by destruct dt. Qed.

Lemma convert_same dt v : convert dt dt v = v.
Proof. unfold convert. by rewrite decide_True. Qed.

Lemma broadcast_rev_same s : broadcast_rev s s = Ok s.
Proof.
  induction s as [|a s IH]; [done|]. simpl. by rewrite Z.eqb_refl, IH.
Qed.

Lemma broadcast_shapes_same s : broadcast_shapes s s = Ok s.
Proof.
  unfold broadcast_shapes. rewrite broadcast_rev_same. simpl.
  unfold Ok. by rewrite reverse_involutive.
Qed.

Lemma broadcast_filter O ci kd kh kw :
  broadcast_shapes [O; ci; kd; kh; kw] [O; 1; 1; 1; 1]
  = Ok [O; ci; kd; kh; kw].
Proof.
  unfold broadcast_shapes. cbn [reverse rev_append broadcast_rev].
  rewrite Z.eqb_refl.
  by destruct (kw =? 1), (kh =? 1), (kd =? 1), (ci =? 1).
Qed.

(** Reading an operand of the shape of the result. *)
Lemma bidx_in_range s idx : in_range s idx → bidx s idx = idx.
Proof.
  unfold in_range, bidx. intros H.
  rewrite <- (Forall2_length H), Nat.sub_diag, drop_0.
  induction H as [|n i s idx Hi H IH]; [done|]. simpl. rewrite IH.
  destruct (Z.eqb_spec n 1); [|done]. f_equal. lia.
Qed.

Lemma bidx_filter O o i d h w :
  0 ≤ o < O → bidx [O; 1; 1; 1; 1] [o; i; d; h; w] = [o; 0; 0; 0; 0].
Proof.
  intros Ho. unfold bidx. simpl.
  destruct (Z.eqb_spec O 1); [|done]. f_equal. lia.
Qed.

Lemma fmap_bind_list {A B C} (f : B → C) (l : list A) (g : A → list B)
    (g' : A → list C) :
  (∀ j, f <$> g j = g' j) → f <$> (l ≫= g) = l ≫= g'.
Proof.
  intros H. induction l as [|a l IH]; [done|].
  cbn [mbind list_bind]. rewrite fmap_app, H. f_equal. exact IH.
Qed.

Lemma sub_indices_filter O ci kd kh kw o :
  sub_indices [O; ci; kd; kh; kw] [1; 2; 3; 4]%nat 0 [o; 0; 0; 0; 0]
  = filter_entries [O; ci; kd; kh; kw] o.
Proof.
  simpl.
  apply fmap_bind_list; intros i. rewrite <- list_fmap_compose.
  apply fmap_bind_list; intros d. rewrite <- list_fmap_compose.
  apply fmap_bind_list; intros h. rewrite <- list_fmap_compose.
  apply fmap_bind_list; intros w. reflexivity.
Qed.

Lemma mean_at_filter W O ci kd kh kw o :
  shape W = [O; ci; kd; kh; kw] →
  mean_at W [1; 2; 3; 4]%nat [o; 0; 0; 0; 0] = filter_mean W o.
Proof.
  intros E. unfold mean_at, filter_mean. rewrite E, sub_indices_filter.
  do 2 f_equal. unfold reduced_count, filter_size. simpl. lia.
Qed.

Lemma var_at_filter W O ci kd kh kw o :
  shape W = [O; ci; kd; kh; kw] →
  var_at W [1; 2; 3; 4]%nat false [o; 0; 0; 0; 0] = filter_var W o.
Proof.
  intros E. unfold var_at, filter_var.
  rewrite (mean_at_filter _ _ _ _ _ _ _ E), E, sub_indices_filter.
  do 2 f_equal. unfold reduced_count, filter_size. simpl. lia.
Qed.

Lemma standardize_val_spec W O ci kd kh kw :
  shape W = [O; ci; kd; kh; kw] →
  ∃ W', standardize_val W = Ok W' ∧ is_standardized W W'.
Proof.
  intros E. unfold standardize_val, var_mean_val. rewrite E. simpl.
  unfold sub_val, div_val, binop. simpl.
  rewrite decide_True by done. rewrite E, broadcast_filter. simpl.
  rewrite decide_True by done. rewrite broadcast_filter. simpl.
  eexists. split; [reflexivity|].
  split; [by rewrite E|]. simpl. rewrite !promote_idem.
  split; [done|]. split; [done|].
  intros o i d h w Hr. rewrite !convert_same.
  assert (0 ≤ o < O) as Ho.
  { rewrite E in Hr. by apply Forall2_cons_1 in Hr as [? _]. }
  rewrite E in Hr.
  change (keepdim_shape _ _) with [O; 1; 1; 1; 1].
  rewrite !(bidx_in_range _ _ Hr), bidx_filter by done.
  rewrite (mean_at_filter _ _ _ _ _ _ _ E), (var_at_filter _ _ _ _ _ _ _ E).
  reflexivity.
Qed.

End Standardisation.
Section Shapes.
Context `{RT : Runtime}.

Abbreviation store := (list tensor).
Abbreviation loc := nat.

(** ** Shapes through the layers *)

Lemma conv_out_size_ok n k s p :
  k ≤ n + 2 * p → conv_out_size n k s p 1 = Ok (conv_size n k s p).
Proof.
  intros H. unfold conv_out_size, conv_size.
  replace (1 * (k - 1) + 1) with k by lia.
  by rewrite (proj2 (Z.ltb_ge _ _)) by lia.
Qed.

Lemma same_kind_of_kind x w s s' dt dev :
  of_kind x s dt dev → of_kind w s' dt dev → same_kind x w = true.
Proof.
  intros (_ & Dx & Vx) (_ & Dw & Vw). unfold same_kind.
  rewrite Dx, Dw, Vx, Vw. by rewrite !bool_decide_eq_true_2.
Qed.

Lemma conv_spec_shape (σ : store) c cin cout k s p xv b d h w :
  conv_ok σ c cin cout k s p →
  of_kind xv [b; cin; d; h; w] default_dtype cpu →
  0 < s → 0 ≤ p → k ≤ d + 2 * p → k ≤ h + 2 * p → k ≤ w + 2 * p →
  ∃ out, conv_spec σ c xv = Ok out ∧
    of_kind out [b; cout; conv_size d k s p; conv_size h k s p;
                 conv_size w k s p] default_dtype cpu.
Proof.
  intros (Ein & Eout & Ek & Es & Ep & Ed & Eg & Eb & W & EW & KW) Kx
         Hs Hp Hd Hh Hw.
  unfold conv_spec. rewrite (param_ok _ _ _ EW), Eb. simpl.
  destruct (standardize_val_spec W _ _ _ _ _ (proj1 KW))
    as (W' & -> & SW & DW & VW & _). simpl.
  assert (of_kind W' [cout; cin; k; k; k] default_dtype cpu) as KW'.
  { destruct KW as (? & ? & ?). split; [congruence|]. split; congruence. }
  unfold conv3d_val. rewrite (proj1 Kx), (proj1 KW').
  rewrite (same_kind_of_kind _ _ _ _ _ _ Kx KW'). simpl.
  rewrite Es, Ep, Ed, Eg.
  rewrite (proj2 (Z.ltb_lt 0 s)), (proj2 (Z.leb_le 0 p)) by done. simpl.
  rewrite Z.mul_1_r, Z.eqb_refl, Z.mod_1_r. simpl.
  rewrite !conv_out_size_ok by done. simpl.
  eexists. split; [reflexivity|].
  destruct Kx as (? & ? & ?). by split.
Qed.

Lemma product3 d h w : product [d; h; w] = d * (h * w).
Proof. unfold product. simpl. lia. Qed.

(** With whole groups and a positive batch, the guard of the group
    normalisation passes as soon as there is more than one voxel over the
    batch. *)
Lemma gn_guard b C G d h w :
  0 < G → 0 < C → C mod G = 0 → 1 ≤ b → 1 ≤ d → 1 ≤ h → 1 ≤ w →
  1 < b * (d * (h * w)) →
  (b * C) / G * product [d; h; w] ≠ 1.
Proof.
  intros HG HC Hm Hb Hd Hh Hw Hv. rewrite product3.
  apply Z.mod_divide in Hm as [m ->]; [|lia].
  replace (b * (m * G)) with (b * m * G) by lia. rewrite Z.div_mul by lia.
  assert (1 ≤ m) by nia.
  assert (1 ≤ d * (h * w)) by nia.
  nia.
Qed.

Lemma gn_spec_shape (σ : store) g G C xv b d h w :
  gn_ok σ g G C →
  of_kind xv [b; C; d; h; w] default_dtype cpu →
  0 < G → 0 < C → C mod G = 0 → 1 ≤ b → 1 ≤ d → 1 ≤ h → 1 ≤ w →
  1 < b * (d * (h * w)) →
  ∃ out, gn_spec σ g xv = Ok out ∧
         of_kind out [b; C; d; h; w] default_dtype cpu.
Proof.
  intros (EG & EC & (wv & Ew & Kw) & (bv & Eb & Kb)) Kx HG HC Hm Hb Hd Hh Hw Hv.
  unfold gn_spec. rewrite (param_ok _ _ _ Ew), (param_ok _ _ _ Eb). simpl.
  unfold group_norm_val. rewrite (proj1 Kx), EG.
  rewrite (proj2 (Z.eqb_neq G 0)) by lia.
  rewrite (proj2 (Z.eqb_neq _ 1)) by (by apply gn_guard).
  rewrite Hm. simpl.
  rewrite (same_kind_of_kind _ _ _ _ _ _ Kx Kw).
  rewrite (same_kind_of_kind _ _ _ _ _ _ Kx Kb).
  rewrite (proj1 Kw), (proj1 Kb). rewrite !bool_decide_eq_true_2 by done.
  simpl. eexists. split; [reflexivity|].
  destruct Kx as (? & ? & ?). by split.
Qed.

Lemma relu_val_kind v s dt dev : of_kind v s dt dev → of_kind (relu_val v) s dt dev.
Proof. done. Qed.

Lemma add_val_kind x y s dt dev :
  of_kind x s dt dev → of_kind y s dt dev →
  ∃ out, add_val x y = Ok out ∧ of_kind out s dt dev.
Proof.
  intros (Sx & Dx & Vx) (Sy & Dy & Vy). unfold add_val, binop.
  rewrite decide_True by congruence.
  rewrite Sx, Sy, broadcast_shapes_same. simpl.
  eexists. split; [reflexivity|]. split; [done|]. simpl.
  split; [|done]. by rewrite Dx, Dy, promote_idem.
Qed.

Lemma conv_size_1 n : conv_size n 1 1 0 = n.
Proof. unfold conv_size. rewrite Z.div_1_r. lia. Qed.

Lemma conv_size_3 n s : conv_size n 3 s 1 = conv_size n 1 s 0.
Proof. unfold conv_size. do 2 f_equal. lia. Qed.

Lemma conv_size_bounds n s : 0 < s → 1 ≤ n → 1 ≤ conv_size n 1 s 0 ≤ n.
Proof.
  intros Hs Hn. unfold conv_size.
  assert (0 ≤ (n + 2 * 0 - 1) / s) by (apply Z.div_pos; lia).
  assert ((n + 2 * 0 - 1) / s ≤ n + 2 * 0 - 1) by (apply Z.div_le_upper_bound; nia).
  lia.
Qed.

Lemma volume_mono b d h w d' h' w' :
  1 ≤ b → 1 ≤ d' ≤ d → 1 ≤ h' ≤ h → 1 ≤ w' ≤ w →
  1 < b * (d' * (h' * w')) → 1 < b * (d * (h * w)).
Proof.
  intros Hb Hd Hh Hw Hv.
  assert (h' * w' ≤ h * w) by nia.
  assert (1 ≤ h' * w') by nia.
  assert (d' * (h' * w') ≤ d * (h * w)) by nia.
  nia.
Qed.

Lemma conv_gn_relu_spec_shape (σ : store) c g cin cout k s p xv b d h w :
  conv_ok σ c cin cout k s p → gn_ok σ g 32 cout →
  of_kind xv [b; cin; d; h; w] default_dtype cpu →
  0 < s → 0 ≤ p → k ≤ d + 2 * p → k ≤ h + 2 * p → k ≤ w + 2 * p →
  0 < cout → cout mod 32 = 0 → 1 ≤ b →
  1 ≤ conv_size d k s p → 1 ≤ conv_size h k s p → 1 ≤ conv_size w k s p →
  1 < b * (conv_size d k s p * (conv_size h k s p * conv_size w k s p)) →
  ∃ out, conv_gn_relu_spec σ c g xv = Ok out ∧
    of_kind out [b; cout; conv_size d k s p; conv_size h k s p;
                 conv_size w k s p] default_dtype cpu.
Proof.
  intros Hc Hg Kx Hs Hp Hd Hh Hw Hco Hm Hb Hd' Hh' Hw' Hv.
  unfold conv_gn_relu_spec.
  destruct (conv_spec_shape _ _ _ _ _ _ _ _ _ _ _ _ Hc Kx Hs Hp Hd Hh Hw)
    as (y & -> & Ky). simpl.
  destruct (gn_spec_shape _ _ _ _ _ _ _ _ _ Hg Ky) as (z & -> & Kz);
    [lia|done..|].
  simpl. eexists. split; [reflexivity|]. by apply relu_val_kind.
Qed.

Lemma bottleneck_spec_shape (σ : store) u cin cout cmid s xv b d h w :
  unit_ok σ u cin cout cmid s →
  of_kind xv [b; cin; d; h; w] default_dtype cpu →
  0 < s → 0 < cmid → cmid mod 32 = 0 → 0 < cout → cout mod 32 = 0 →
  1 ≤ b → 1 ≤ d → 1 ≤ h → 1 ≤ w →
  1 < b * (conv_size d 1 s 0 * (conv_size h 1 s 0 * conv_size w 1 s 0)) →
  ∃ out, bottleneck_spec σ u xv = Ok out ∧
    of_kind out [b; cout; conv_size d 1 s 0; conv_size h 1 s 0;
                 conv_size w 1 s 0] default_dtype cpu.
Proof.
  intros (G1 & C1 & G2 & C2 & G3 & C3 & DS) Kx Hs Hcm Hmm Hco Hmo
         Hb Hd Hh Hw Hv.
  pose proof (conv_size_bounds d s Hs Hd) as Bd.
  pose proof (conv_size_bounds h s Hs Hh) as Bh.
  pose proof (conv_size_bounds w s Hs Hw) as Bw.
  pose proof (volume_mono _ _ _ _ _ _ _ Hb Bd Bh Bw Hv) as Hv0.
  unfold bottleneck_spec.
  (* the residual *)
  assert (∃ r, residual_spec σ u xv = Ok r ∧
               of_kind r [b; cout; conv_size d 1 s 0; conv_size h 1 s 0;
                          conv_size w 1 s 0] default_dtype cpu)
    as (r & -> & Kr).
  { unfold residual_spec. case_bool_decide as Hproj.
    - destruct DS as (ds & g & -> & -> & Hds & Hg).
      destruct (conv_spec_shape _ _ _ _ _ _ _ _ _ _ _ _ Hds Kx)
        as (y & -> & Ky); [lia..|]. simpl.
      apply (gn_spec_shape _ _ _ _ _ _ _ _ _ Hg Ky); try lia.
      apply Z_mod_same_full.
    - destruct DS as [-> _].
      assert (s = 1 ∧ cin = cout) as [-> ->] by lia.
      rewrite !conv_size_1. by eexists. }
  simpl. unfold unit_branch_spec.
  destruct (conv_gn_relu_spec_shape _ _ _ _ _ _ _ _ _ _ _ _ _ C1 G1 Kx)
    as (y1 & -> & K1); rewrite ?conv_size_1; try lia.
  simpl. rewrite !conv_size_1 in K1.
  destruct (conv_gn_relu_spec_shape _ _ _ _ _ _ _ _ _ _ _ _ _ C2 G2 K1)
    as (y2 & -> & K2); rewrite ?conv_size_3; try lia.
  simpl. rewrite !conv_size_3 in K2.
  destruct (conv_spec_shape _ _ _ _ _ _ _ _ _ _ _ _ C3 K2)
    as (y3 & -> & K3); [lia..|]. simpl. rewrite !conv_size_1 in K3.
  destruct (gn_spec_shape _ _ _ _ _ _ _ _ _ G3 K3) as (y4 & -> & K4);
    [lia..|].
  simpl.
  destruct (add_val_kind _ _ _ _ _ Kr K4) as (y5 & -> & K5). simpl.
  eexists. split; [reflexivity|]. by apply relu_val_kind.
Qed.

End Shapes.
Section Reconciliation.
Context `{RT : Runtime}.

Abbreviation store := (list tensor).
Abbreviation loc := nat.

(** ** ensure_right_shape *)

(** *** The right spatial shape, in floating point *)

Lemma format_bounds dt :
  8 ≤ significand_bits dt ≤ 53 ∧ 15 ≤ max_exponent dt ∧
  significand_bits dt ≤ max_exponent dt.
Proof. destruct dt; simpl; lia. Qed.

Lemma shl_pow2 a k : 0 ≤ k → shl a k = a * 2 ^ k.
Proof. intros. unfold shl. by rewrite Z.max_r by lia. Qed.

Lemma shl_neg a k : k ≤ 0 → shl a k = a.
Proof. intros. unfold shl. rewrite Z.max_l by lia. simpl. lia. Qed.

Lemma log2_ratio_pow2 a k :
  0 < a → 0 ≤ k → log2_ratio a (2 ^ k) = Z.log2 a - k.
Proof.
  intros Ha Hk. unfold log2_ratio. rewrite Z.log2_pow2 by done.
  pose proof (Z.log2_nonneg a) as Hl.
  destruct (Z.log2_spec a Ha) as [Hlo _].
  rewrite (proj2 (Z.leb_le _ _)); [done|].
  destruct (Z.le_gt_cases 0 (Z.log2 a - k)) as [He|He].
  - rewrite shl_pow2, shl_neg by lia. rewrite <- Z.pow_add_r by lia.
    by replace (k + (Z.log2 a - k)) with (Z.log2 a) by lia.
  - rewrite shl_neg, shl_pow2 by lia.
    replace k with (Z.log2 a + - (Z.log2 a - k)) at 1 by lia.
    rewrite Z.pow_add_r by lia. apply Z.mul_le_mono_nonneg_r; [|done].
    apply Z.pow_nonneg. lia.
Qed.

Lemma nearest_even_exact q b : 0 < b → nearest_even (q * b) b = q.
Proof.
  intros Hb. unfold nearest_even. rewrite Z.mod_mul, Z.div_mul by lia.
  simpl. by destruct b.
Qed.

(** A ratio with at most as many significant bits as the format, within
    its range of exponents, is a value of the format. *)
Lemma round_ratio_exact dt c x k :
  0 < c < 2 ^ significand_bits dt → 0 ≤ x → 0 ≤ k →
  1 - max_exponent dt ≤ Z.log2 c + x - k ≤ max_exponent dt →
  round_ratio dt (c * 2 ^ x) (2 ^ k)
  = Finite (c * 2 ^ (significand_bits dt - 1 - Z.log2 c))
           (Z.log2 c + x - k - (significand_bits dt - 1)).
Proof.
  intros Hc Hx Hk He. pose proof (format_bounds dt) as Hf.
  set (p := significand_bits dt) in *. set (emax := max_exponent dt) in *.
  assert (Z.log2 c < p) as Hl by (apply Z.log2_lt_pow2; lia).
  pose proof (Z.log2_nonneg c) as Hl0.
  assert (0 < 2 ^ x) as Hpx by (apply Z.pow_pos_nonneg; lia).
  assert (0 < c * 2 ^ x) as Ha by lia.
  unfold round_ratio. fold p emax.
  rewrite (proj2 (Z.eqb_neq _ 0)) by lia.
  rewrite Z.abs_eq by lia.
  rewrite log2_ratio_pow2, Z.log2_mul_pow2 by lia.
  rewrite Z.max_l by lia.
  set (e := x + Z.log2 c - k - (p - 1)).
  set (t := p - 1 - Z.log2 c).
  assert (shl (c * 2 ^ x) (- e) = c * 2 ^ t * shl (2 ^ k) e) as ->.
  { destruct (Z.le_gt_cases e 0) as [Hle|Hgt].
    - rewrite shl_pow2, (shl_neg _ e) by lia.
      rewrite <- !Z.mul_assoc, <- !Z.pow_add_r by lia.
      do 2 f_equal. lia.
    - rewrite shl_neg, (shl_pow2 _ e) by lia.
      rewrite <- !Z.mul_assoc, <- !Z.pow_add_r by lia.
      do 2 f_equal. lia. }
  rewrite nearest_even_exact
    by (unfold shl; apply Z.mul_pos_pos; apply Z.pow_pos_nonneg; lia).
  rewrite Z.log2_mul_pow2 by lia.
  rewrite (proj2 (Z.leb_gt _ _)) by lia.
  rewrite Z.sgn_pos by lia. f_equal; lia.
Qed.

Lemma float_of_int_pow2 dt j :
  0 ≤ j ≤ 2 →
  float_of_int dt (2 ^ j)
  = Finite (2 ^ (significand_bits dt - 1)) (j - (significand_bits dt - 1)).
Proof.
  intros Hj. assert (j = 0 ∨ j = 1 ∨ j = 2) as [->|[->| ->]] by lia;
    by destruct dt.
Qed.

(** Dividing by a power of two keeps the significand. *)
Lemma float_div_pow2 dt c E j :
  0 < c < 2 ^ significand_bits dt → 
  1 - max_exponent dt ≤ Z.log2 c + E - j ≤ max_exponent dt →
  float_div dt (Finite c E)
    (Finite (2 ^ (significand_bits dt - 1)) (j - (significand_bits dt - 1)))
  = Finite (c * 2 ^ (significand_bits dt - 1 - Z.log2 c))
      (Z.log2 c + E - j - (significand_bits dt - 1)).
Proof.
  intros Hc He. pose proof (format_bounds dt) as Hf.
  set (p := significand_bits dt) in *. set (emax := max_exponent dt) in *.
  assert (0 < 2 ^ (p - 1)) as Hp by (apply Z.pow_pos_nonneg; lia).
  unfold float_div. rewrite (proj2 (Z.eqb_neq _ 0)) by lia.
  rewrite Z.sgn_pos, Z.mul_1_l, Z.abs_eq by lia.
  destruct (Z.le_gt_cases 0 (E - (j - (p - 1)))) as [Hle|Hgt].
  - rewrite shl_pow2, shl_neg by lia.
    rewrite round_ratio_exact by (fold p emax; lia). fold p.
    f_equal; lia.
  - rewrite shl_neg, shl_pow2 by lia.
    rewrite <- Z.pow_add_r by lia.
    rewrite <- (Z.mul_1_r c) at 1. change 1 with (2 ^ 0) at 1.
    rewrite round_ratio_exact by (fold p emax; lia). fold p.
    f_equal; lia.
Qed.

Lemma float_of_int_exact dt n :
  0 < n < 2 ^ significand_bits dt →
  float_of_int dt n
  = Finite (n * 2 ^ (significand_bits dt - 1 - Z.log2 n))
           (Z.log2 n - (significand_bits dt - 1)).
Proof.
  intros Hn. pose proof (format_bounds dt) as Hf.
  assert (Z.log2 n < significand_bits dt) by (apply Z.log2_lt_pow2; lia).
  pose proof (Z.log2_nonneg n).
  unfold float_of_int. rewrite <- (Z.mul_1_r n) at 1.
  change 1 with (2 ^ 0). rewrite round_ratio_exact by lia.
  f_equal; lia.
Qed.

Lemma float_floor_to_int c E :
  E < 0 → - 2 ^ 31 ≤ c / 2 ^ (- E) < 2 ^ 31 →
  float_to_int (float_floor (Finite c E)) = c / 2 ^ (- E).
Proof.
  intros HE Hz. unfold float_floor. rewrite (proj2 (Z.leb_gt _ _)) by lia.
  cbn [float_to_int Z.leb Z.compare]. rewrite Z.mul_1_r.
  by rewrite (proj2 (Z.leb_le _ _)), (proj2 (Z.ltb_lt _ _)) by lia.
Qed.

(** For the block indices of the forward pass and an extent the default
    dtype holds, the right extent is the quotient of the integers. *)
Lemma right_size_div i n :
  i = 0 ∨ i = 1 → 0 ≤ n → exact_extent n →
  right_size i n = n / (4 * (i + 1)).
Proof.
  intros Hi Hn0' [Hn H33]. pose proof (format_bounds default_dtype) as Hf.
  destruct (decide (n = 0)) as [->|Hn0].
  { unfold right_size.
    destruct default_dtype; destruct Hi as [-> | ->]; reflexivity. }
  set (p := significand_bits default_dtype) in *.
  pose proof (Z.log2_nonneg n) as Hl0.
  assert (Z.log2 n < p) as Hl by (apply Z.log2_lt_pow2; lia).
  set (t := p - 1 - Z.log2 n).
  assert (0 < 2 ^ t) as Ht by (apply Z.pow_pos_nonneg; lia).
  assert (Z.log2 (n * 2 ^ t) = p - 1) as Hlc
    by (rewrite Z.log2_mul_pow2 by lia; lia).
  assert (0 < n * 2 ^ t < 2 ^ p) as Hc.
  { split; [lia|]. apply Z.log2_lt_pow2; lia. }
  assert (n * 2 ^ t / 2 ^ (t + (2 + i)) = n / (4 * (i + 1))) as Hq.
  { rewrite Z.pow_add_r, (Z.mul_comm (2 ^ t)) by lia.
    rewrite Z.div_mul_cancel_r by (destruct Hi as [-> | ->]; lia).
    f_equal. by destruct Hi as [-> | ->]. }
  assert (0 ≤ n / (4 * (i + 1)) < 2 ^ 31) as Hz.
  { split; [apply Z.div_pos; lia|].
    apply Z.div_lt_upper_bound; [lia|]. destruct Hi as [-> | ->]; lia. }
  rewrite <- Hq in Hz |- *. clear Hq.
  unfold right_size.
  rewrite float_of_int_exact by (fold p; lia). fold p t.
  change 4 with (2 ^ 2). rewrite float_of_int_pow2 by lia. fold p.
  rewrite float_div_pow2 by (fold p; lia). fold p. rewrite Hlc.
  replace (p - 1 - (p - 1)) with 0 by lia. rewrite Z.mul_1_r.
  assert (i + 1 = 2 ^ i) as -> by (by destruct Hi as [-> | ->]).
  rewrite float_of_int_pow2 by lia. fold p.
  rewrite float_div_pow2 by (fold p; lia). fold p. rewrite Hlc.
  replace (p - 1 - (p - 1)) with 0 by lia. rewrite Z.mul_1_r.
  match goal with
  | |- float_to_int (float_floor (Finite _ ?E)) = _ =>
      assert (- E = t + (2 + i)) as HE by (unfold t; lia)
  end.
  rewrite float_floor_to_int; rewrite ?HE; first [done | unfold t in *; lia].
Qed.

Lemma in_rangeb_spec s idx : in_rangeb s idx = true ↔ in_range s idx.
Proof.
  unfold in_rangeb, in_range. rewrite andb_true_iff, bool_decide_eq_true.
  split.
  - intros [Hl Hf]. revert idx Hl Hf.
    induction s as [|n s IH]; intros [|i idx] Hl Hf; simplify_eq/=;
      [constructor|].
    apply andb_true_iff in Hf as [Hi Hf]. constructor; [lia|by apply IH].
  - induction 1 as [|n i s idx Hi H [IH1 IH2]]; [done|]. simpl.
    split; [by f_equal|]. apply andb_true_iff. split; [lia|done].
Qed.

Lemma pair_up3 (a b c a' b' c' : Z) :
  pair_up [a; b; c] [a'; b'; c'] = Ok [(a, a'); (b, b'); (c, c')].
Proof. reflexivity. Qed.

(** The function on a five-axis tensor and a three-axis original shape,
    with the runtime calls evaluated. *)
Lemma ensure_right_shape_unfold (σ : store) x xv b0 b c d h w D H W i :
  σ !! x = Some xv → shape xv = [b0; c; d; h; w] →
  ensure_right_shape x b [D; H; W] i σ =
  let rd := right_size i D in
  let rh := right_size i H in
  let rw := right_size i W in
  if negb (d =? rd) || (negb (h =? rh) || (negb (w =? rw) || false))
  then
    if ((rd - d <=? 3) && (0 <=? rd - d))
       && (((rh - h <=? 3) && (0 <=? rh - h))
           && (((rw - w <=? 3) && (0 <=? rw - w)) && true))
    then
      match zeros_val [b; c; rd; rh; rw] (t_device xv) with
      | inl e => inl e
      | inr z =>
          match setitem_corner z d h w xv with
          | inl e => inl e
          | inr r => inr (length σ, σ ++ [r])
          end
      end
    else inl AssertionError
  else inr (x, σ).
Proof.
  intros Ex Es. unfold ensure_right_shape.
  rewrite bind_run, (load_ok _ _ _ Ex). rewrite Es.
  cbn [drop fmap list_fmap]. rewrite bind_run, pair_up3.
  cbv [lift Ok]. cbn [existsb fst snd].
  destruct (negb _ || _); [|reflexivity].
  rewrite bind_run, pair_up3.
  cbv [lift Ok]. cbn [fmap list_fmap forallb fst snd].
  destruct (_ && _); [|reflexivity].
  rewrite bind_run. cbv [lift Ok index]. cbn [lookup list_lookup].
  unfold torch_zeros. rewrite !bind_run.
  destruct (zeros_val _ _) as [e|z]; [reflexivity|].
  cbv [lift Ok alloc].
  rewrite !bind_run. cbn [lookup list_lookup].
  unfold setitem. rewrite !bind_run.
  rewrite (load_ok _ _ z) by apply lookup_snoc.
  rewrite bind_run, (load_ok _ _ xv)
    by (apply lookup_app_l_Some, Ex).
  rewrite bind_run. destruct (setitem_corner _ _ _ _ _) as [e|r];
    [reflexivity|].
  cbv [lift Ok store_at]. by rewrite insert_snoc.
Qed.

Lemma ensure_right_shape_same (σ : store) x xv b0 b c d h w D H W i :
  σ !! x = Some xv → shape xv = [b0; c; d; h; w] →
  d = right_size i D → h = right_size i H → w = right_size i W →
  ensure_right_shape x b [D; H; W] i σ = inr (x, σ).
Proof.
  intros Ex Es -> -> ->.
  rewrite (ensure_right_shape_unfold _ _ _ _ _ _ _ _ _ _ _ _ _ Ex Es).
  cbv zeta. by rewrite !Z.eqb_refl.
Qed.

Lemma ensure_right_shape_assert (σ : store) x xv b0 b c d h w D H W i :
  σ !! x = Some xv → shape xv = [b0; c; d; h; w] →
  ¬ (pad_ok (right_size i D) d ∧ pad_ok (right_size i H) h ∧
     pad_ok (right_size i W) w) →
  ensure_right_shape x b [D; H; W] i σ = inl AssertionError.
Proof.
  intros Ex Es Hp.
  rewrite (ensure_right_shape_unfold _ _ _ _ _ _ _ _ _ _ _ _ _ Ex Es).
  cbv zeta. unfold pad_ok in Hp.
  destruct (negb _ || _) eqn:Hne.
  - destruct (_ && _) eqn:Hok; [|done]. exfalso. apply Hp. 
    repeat (apply andb_true_iff in Hok as [? Hok]).
    repeat match goal with H : _ && _ = true |- _ =>
             apply andb_true_iff in H as [? ?] end.
    lia.
  - exfalso. apply Hp.
    repeat (apply orb_false_iff in Hne as [? Hne]).
    repeat match goal with H : negb _ = false |- _ =>
             apply negb_false_iff, Z.eqb_eq in H end.
    lia.
Qed.

Lemma ensure_right_shape_pad (σ : store) x xv b c d h w D H W i :
  σ !! x = Some xv → shape xv = [b; c; d; h; w] →
  [d; h; w] ≠ [right_size i D; right_size i H; right_size i W] →
  pad_ok (right_size i D) d → pad_ok (right_size i H) h →
  pad_ok (right_size i W) w →
  0 ≤ b → 0 ≤ c → 0 ≤ d → 0 ≤ h → 0 ≤ w →
  ∃ r, ensure_right_shape x b [D; H; W] i σ = inr (length σ, σ ++ [r]) ∧
       is_padded xv [b; c; right_size i D; right_size i H; right_size i W] r.
Proof.
  intros Ex Es Hne Pd Ph Pw Hb Hc Hd Hh Hw. unfold pad_ok in *.
  rewrite (ensure_right_shape_unfold _ _ _ _ _ _ _ _ _ _ _ _ _ Ex Es).
  cbv zeta.
  assert (negb (d =? right_size i D)
          || (negb (h =? right_size i H)
              || (negb (w =? right_size i W) || false)) = true) as ->.
  { destruct (Z.eqb_spec d (right_size i D)) as [->|]; [|done].
    destruct (Z.eqb_spec h (right_size i H)) as [->|]; [|done].
    destruct (Z.eqb_spec w (right_size i W)) as [->|]; done. }
  rewrite !(proj2 (Z.leb_le _ _)) by lia. cbn [andb].
  unfold zeros_val. cbn [forallb].
  rewrite !(proj2 (Z.leb_le _ _)) by lia. cbn [andb].
  unfold setitem_corner. cbv [Ok]. cbn [shape].
  rewrite !Z.min_l by lia. rewrite Es, broadcast_shapes_same.
  cbv [Ok]. rewrite bool_decide_eq_true_2 by done.
  eexists. split; [reflexivity|].
  split; [done|]. split; [done|]. split; [done|].
  intros idx. cbn [data t_dtype]. rewrite Es.
  destruct (in_rangeb _ idx) eqn:Hr; [|done].
  by rewrite bidx_in_range by (by apply in_rangeb_spec).
Qed.

End Reconciliation.
Section Forward.
Context `{RT : Runtime}.

Abbreviation store := (list tensor).
Abbreviation loc := nat.

(** ** Well-formed modules in a growing store *)

Lemma is_tensor_mono (σ σ' : store) l s dt dev :
  σ `prefix_of` σ' → is_tensor σ l s dt dev → is_tensor σ' l s dt dev.
Proof.
  intros P (v & E & K). exists v. split; [|done].
  by eapply prefix_lookup_Some.
Qed.

Lemma conv_ok_mono (σ σ' : store) c cin cout k s p :
  σ `prefix_of` σ' → conv_ok σ c cin cout k s p → conv_ok σ' c cin cout k s p.
Proof.
  intros P (? & ? & ? & ? & ? & ? & ? & ? & T).
  unfold conv_ok. split_and!; try done. by eapply is_tensor_mono.
Qed.

Lemma gn_ok_mono (σ σ' : store) g G C :
  σ `prefix_of` σ' → gn_ok σ g G C → gn_ok σ' g G C.
Proof.
  intros P (? & ? & T1 & T2).
  unfold gn_ok. split_and!; try done; by eapply is_tensor_mono.
Qed.

Lemma unit_ok_mono (σ σ' : store) u cin cout cmid s :
  σ `prefix_of` σ' → unit_ok σ u cin cout cmid s → unit_ok σ' u cin cout cmid s.
Proof.
  intros P (G1 & C1 & G2 & C2 & G3 & C3 & DS).
  unfold unit_ok. split_and!; eauto using conv_ok_mono, gn_ok_mono.
  case_bool_decide; [|done].
  destruct DS as (ds & g & ? & ? & ? & ?).
  exists ds, g. split_and!; eauto using conv_ok_mono, gn_ok_mono.
Qed.

Lemma block_ok_mono (σ σ' : store) units n cin cout cmid s :
  σ `prefix_of` σ' → block_ok σ units n cin cout cmid s →
  block_ok σ' units n cin cout cmid s.
Proof.
  intros P (u & rest & ? & ? & U & F). exists u, rest.
  split_and!; try done; [by eapply unit_ok_mono|].
  eapply Forall_impl; [|exact F]. intros u'. by apply unit_ok_mono.
Qed.

Lemma conv_ok_alloc (σ : store) c cin cout k s p :
  conv_ok σ c cin cout k s p → conv_alloc σ c.
Proof.
  intros (_ & _ & _ & _ & _ & _ & _ & Eb & v & E & _).
  split; [by eexists|]. by rewrite Eb.
Qed.

Lemma gn_ok_alloc (σ : store) g G C : gn_ok σ g G C → gn_alloc σ g.
Proof. intros (_ & _ & (v & E & _) & (v' & E' & _)). split; by eexists. Qed.

Lemma unit_ok_alloc (σ : store) u cin cout cmid s :
  unit_ok σ u cin cout cmid s → unit_alloc σ u.
Proof.
  intros (G1 & C1 & G2 & C2 & G3 & C3 & DS).
  unfold unit_alloc. split_and!; eauto using conv_ok_alloc, gn_ok_alloc;
    case_bool_decide.
  - destruct DS as (ds & g & E1 & E2 & ? & ?). rewrite E1.
    eapply conv_ok_alloc; eauto.
  - by destruct DS as [-> _].
  - destruct DS as (ds & g & E1 & E2 & ? & ?). rewrite E2.
    eapply gn_ok_alloc; eauto.
  - by destruct DS as [_ ->].
Qed.

(** ** The layers return, with the expected shapes *)

Lemma unit_forward_returns (σ : store) u cin cout cmid s x b d h w :
  unit_ok σ u cin cout cmid s →
  is_tensor σ x [b; cin; d; h; w] default_dtype cpu →
  0 < s → 0 < cmid → cmid mod 32 = 0 → 0 < cout → cout mod 32 = 0 →
  1 ≤ b → 1 ≤ d → 1 ≤ h → 1 ≤ w →
  1 < b * (conv_size d 1 s 0 * (conv_size h 1 s 0 * conv_size w 1 s 0)) →
  returns (PreActBottleneck_3d_forward u x) σ
    (shaped σ [b; cout; conv_size d 1 s 0; conv_size h 1 s 0;
               conv_size w 1 s 0]).
Proof.
  intros Hu (xv & Ex & Kx) Hs Hcm Hmm Hco Hmo Hb Hd Hh Hw Hv.
  destruct (bottleneck_spec_shape _ _ _ _ _ _ _ _ _ _ _ Hu Kx)
    as (out & Eout & Kout); try done.
  pose proof (PreActBottleneck_3d_forward_refines σ σ u x xv
                (reflexivity _) (unit_ok_alloc _ _ _ _ _ _ Hu) Ex) as R.
  rewrite Eout in R. destruct R as (l & σ' & E & P & _ & El).
  exists l, σ'. split; [done|]. split; [done|]. by exists out.
Qed.

Lemma shaped_trans (σ0 σ σ' : store) s l :
  σ0 `prefix_of` σ → shaped σ s l σ' → shaped σ0 s l σ'.
Proof. intros P [P' T]. split; [by etrans|done]. Qed.

Lemma Sequential_keep_returns (σ : store) units c cmid x b d h w :
  Forall (λ u, unit_ok σ u c c cmid 1) units →
  is_tensor σ x [b; c; d; h; w] default_dtype cpu →
  0 < cmid → cmid mod 32 = 0 → 0 < c → c mod 32 = 0 →
  1 ≤ b → 1 ≤ d → 1 ≤ h → 1 ≤ w → 1 < b * (d * (h * w)) →
  returns (Sequential_forward units x) σ (shaped σ [b; c; d; h; w]).
Proof.
  intros Hu Tx Hcm Hmm Hco Hmo Hb Hd Hh Hw Hv.
  revert σ x Hu Tx. induction units as [|u units IH]; intros σ x Hu Tx.
  - exists x, σ. by split.
  - apply Forall_cons_1 in Hu as [Hu Hus]. cbn [Sequential_forward].
    apply returns_bind.
    eapply returns_mono.
    { eapply unit_forward_returns; try done; rewrite ?conv_size_1; done. }
    intros y σ1 [P T]. rewrite !conv_size_1 in T.
    eapply returns_mono; [apply IH; [|exact T]|].
    + eapply Forall_impl; [|exact Hus]. intros u'. by apply unit_ok_mono.
    + intros z σ2. by apply shaped_trans.
Qed.

Lemma block_forward_returns (σ : store) units n cin cout cmid s x b d h w :
  block_ok σ units n cin cout cmid s →
  is_tensor σ x [b; cin; d; h; w] default_dtype cpu →
  0 < s → 0 < cmid → cmid mod 32 = 0 → 0 < cout → cout mod 32 = 0 →
  1 ≤ b → 1 ≤ d → 1 ≤ h → 1 ≤ w →
  1 < b * (conv_size d 1 s 0 * (conv_size h 1 s 0 * conv_size w 1 s 0)) →
  returns (Sequential_forward units x) σ
    (shaped σ [b; cout; conv_size d 1 s 0; conv_size h 1 s 0;
               conv_size w 1 s 0]).
Proof.
  intros (u & rest & -> & _ & Hu & Hrest) Tx Hs Hcm Hmm Hco Hmo Hb Hd Hh Hw Hv.
  cbn [Sequential_forward]. apply returns_bind.
  eapply returns_mono; [by eapply unit_forward_returns|].
  intros y σ1 [P T].
  pose proof (conv_size_bounds d s Hs Hd).
  pose proof (conv_size_bounds h s Hs Hh).
  pose proof (conv_size_bounds w s Hs Hw).
  eapply returns_mono.
  { eapply (Sequential_keep_returns _ _ cout cmid);
      [|exact T|try done; lia..].
    eapply Forall_impl; [|exact Hrest]. intros u'. by apply unit_ok_mono. }
  intros z σ2. by apply shaped_trans.
Qed.

Lemma root_forward_returns (σ : store) net cin w x b d h wd :
  conv_ok σ (root_conv net) cin w 7 2 3 → gn_ok σ (root_gn net) 32 w →
  is_tensor σ x [b; cin; d; h; wd] default_dtype cpu →
  0 < w → w mod 32 = 0 → 1 ≤ b → 1 ≤ d → 1 ≤ h → 1 ≤ wd →
  1 < b * (root_size d * (root_size h * root_size wd)) →
  returns (root_forward net x) σ
    (λ l σ', shaped σ [b; w; root_size d; root_size h; root_size wd] l σ' ∧
             (length σ ≤ l)%nat).
Proof.
  intros Hc Hg (xv & Ex & Kx) Hw Hm Hb Hd Hh Hwd Hv.
  destruct (conv_gn_relu_spec_shape _ _ _ _ _ _ _ _ _ _ _ _ _ Hc Hg Kx)
    as (out & Eout & Kout);
    [first [done | lia | unfold conv_size; div_lia | exact Hv]..|].
  pose proof (conv_gn_relu_refines σ σ _ _ x xv (reflexivity _)
                (conv_ok_alloc _ _ _ _ _ _ _ Hc) (gn_ok_alloc _ _ _ _ Hg) Ex)
    as R.
  rewrite Eout in R. destruct R as (l & σ' & E & P & L & El).
  exists l, σ'. split; [done|]. split; [|done]. split; [done|]. by exists out.
Qed.

Lemma MaxPool3d_returns (σ : store) x b c d h w :
  is_tensor σ x [b; c; d; h; w] default_dtype cpu →
  3 ≤ d → 3 ≤ h → 3 ≤ w →
  returns (MaxPool3d_forward 3 2 0 x) σ
    (shaped σ [b; c; pool_size d; pool_size h; pool_size w]).
Proof.
  intros (xv & Ex & Kx) Hd Hh Hw.
  pose proof (MaxPool3d_refines x xv 3 2 0 σ Ex) as R.
  assert (∀ n, 3 ≤ n → pool_out_size n 3 2 0 = Ok (pool_size n)) as Hp.
  { intros n Hn. unfold pool_out_size, pool_size.
    replace (n + 2 * 0 - 3) with (n - 3) by lia.
    by rewrite (proj2 (Z.ltb_ge _ _)) by div_lia. }
  unfold max_pool3d_val in R. rewrite (proj1 Kx) in R. cbn [negb andb] in R.
  simpl in R. rewrite !Hp in R by done. simpl in R.
  destruct R as (l & σ' & E & P & _ & El).
  exists l, σ'. split; [done|]. split; [done|].
  eexists. split; [exact El|]. destruct Kx as (? & ? & ?). by split.
Qed.

End Forward.
Section ForwardSteps.
Context `{RT : Runtime}.

Abbreviation store := (list tensor).
Abbreviation loc := nat.

(** ** The forward pass of the backbone *)

Lemma sizes_of_axis n :
  axis_ok n →
  4 ≤ root_size n ∧ 1 ≤ stage1_size n ∧ 1 ≤ stage2_size n ∧
  1 ≤ stage3_size n ∧
  stage1_size n ≤ root_size n ∧ stage2_size n ≤ stage1_size n ∧
  stage3_size n ≤ stage2_size n ∧ root_size n ≤ n ∧
  stage2_size n = n / 8 ∧ 0 ≤ n / 4 - stage1_size n ≤ 1 ∧
  (n mod 4 = 0 ↔ stage1_size n ≠ n / 4).
Proof.
  unfold axis_ok, stage3_size, stage2_size, stage1_size, half_size,
    pool_size, root_size.
  intros [H8 Hm]. div_lia.
Qed.

Lemma ensure_right_shape_stage0 (σ : store) x B c D H W :
  is_tensor σ x [B; c; stage1_size D; stage1_size H; stage1_size W]
            default_dtype cpu →
  axis_ok D → axis_ok H → axis_ok W →
  exact_extent D → exact_extent H → exact_extent W → 1 ≤ B → 0 ≤ c →
  returns (ensure_right_shape x B [D; H; W] 0) σ
    (λ f σ', shaped σ [B; c; D / 4; H / 4; W / 4] f σ' ∧
       (if bool_decide (D mod 4 = 0 ∨ H mod 4 = 0 ∨ W mod 4 = 0)
        then f = length σ ∧
             ∃ xv r, σ !! x = Some xv ∧ σ' = σ ++ [r] ∧
                     is_padded xv [B; c; D / 4; H / 4; W / 4] r
        else f = x ∧ σ' = σ)).
Proof.
  intros (xv & Ex & Kx) HD HH HW XD XH XW HB Hc.
  pose proof (sizes_of_axis D HD) as SD.
  pose proof (sizes_of_axis H HH) as SH.
  pose proof (sizes_of_axis W HW) as SW.
  assert (0 ≤ D ∧ 0 ≤ H ∧ 0 ≤ W) as (PD & PH & PW)
    by (unfold axis_ok in *; lia).
  pose proof (right_size_div 0 D (or_introl (reflexivity _)) PD XD) as RD.
  pose proof (right_size_div 0 H (or_introl (reflexivity _)) PH XH) as RH.
  pose proof (right_size_div 0 W (or_introl (reflexivity _)) PW XW) as RW.
  change (4 * (0 + 1)) with 4 in *.
  case_bool_decide as Hdiv.
  - destruct (ensure_right_shape_pad σ x xv B c _ _ _ D H W 0 Ex (proj1 Kx))
      as (r & E & Hr); rewrite ?RD, ?RH, ?RW; unfold pad_ok; try lia.
    { intros [= ? ? ?]. lia. }
    rewrite RD, RH, RW in Hr.
    exists (length σ), (σ ++ [r]). split; [done|]. split.
    + split; [by apply prefix_app_r|]. exists r.
      split; [apply lookup_snoc|]. destruct Hr as (? & ? & Hdev & _).
      split; [done|]. split; [done|]. rewrite Hdev. apply Kx.
    + split; [done|]. by exists xv, r.
  - exists x, σ. split.
    + apply (ensure_right_shape_same _ _ _ _ _ _ _ _ _ _ _ _ _ Ex (proj1 Kx));
        rewrite ?RD, ?RH, ?RW; lia.
    + split; [|done]. split; [done|]. exists xv. split; [done|].
      destruct Kx as (Es & ? & ?). split; [|done].
      rewrite Es. repeat f_equal; lia.
Qed.

Lemma ensure_right_shape_stage1 (σ : store) x B c D H W :
  is_tensor σ x [B; c; stage2_size D; stage2_size H; stage2_size W]
            default_dtype cpu →
  axis_ok D → axis_ok H → axis_ok W →
  exact_extent D → exact_extent H → exact_extent W →
  ensure_right_shape x B [D; H; W] 1 σ = inr (x, σ) ∧
  is_tensor σ x [B; c; D / 8; H / 8; W / 8] default_dtype cpu.
Proof.
  intros (xv & Ex & Kx) HD HH HW XD XH XW.
  pose proof (sizes_of_axis D HD) as SD.
  pose proof (sizes_of_axis H HH) as SH.
  pose proof (sizes_of_axis W HW) as SW.
  assert (0 ≤ D ∧ 0 ≤ H ∧ 0 ≤ W) as (PD & PH & PW)
    by (unfold axis_ok in *; lia).
  pose proof (right_size_div 1 D (or_intror (reflexivity _)) PD XD) as RD.
  pose proof (right_size_div 1 H (or_intror (reflexivity _)) PH XH) as RH.
  pose proof (right_size_div 1 W (or_intror (reflexivity _)) PW XW) as RW.
  change (4 * (1 + 1)) with 8 in *.
  split.
  - apply (ensure_right_shape_same _ _ _ _ _ _ _ _ _ _ _ _ _ Ex (proj1 Kx));
      rewrite ?RD, ?RH, ?RW; lia.
  - exists xv. split; [done|]. destruct Kx as (Es & ? & ?). split; [|done].
    rewrite Es. repeat f_equal; lia.
Qed.

Lemma conv_size_half m : conv_size m 1 2 0 = half_size m.
Proof. unfold conv_size, half_size. do 2 f_equal. lia. Qed.

Lemma forward_unroll (σ : store) net s1 s2 s3 x xv B c D H W :
  body net = [s1; s2; s3] → σ !! x = Some xv → shape xv = [B; c; D; H; W] →
  ResNetV2_3D_forward net x σ =
  (tr ← forward_steps net s1 s2 s3 x B [D; H; W];
   mret (tr_out tr, [tr_feat2 tr; tr_feat1 tr; tr_root tr])) σ.
Proof.
  intros Eb Ex Es. unfold ResNetV2_3D_forward, forward_steps.
  rewrite bind_run, (load_ok _ _ _ Ex), Es, Eb.
  cbn [length Nat.sub seq drop]. unfold index. cbn [lookup list_lookup].
  cbv [lift Ok]. rewrite !bind_run.
  destruct (root_forward net x σ) as [e|[x0 σa]]; [done|].
  rewrite !bind_run.
  destruct (MaxPool3d_forward 3 2 0 x0 σa) as [e|[xp σb]]; [done|].
  cbn [body_loop]. unfold index. cbn [lookup list_lookup].
  cbv [lift Ok]. rewrite !bind_run.
  destruct (Sequential_forward s1 xp σb) as [e|[x1 σc]]; [done|].
  rewrite !bind_run. change (Z.of_nat 0) with 0.
  destruct (ensure_right_shape x1 B [D; H; W] 0 σc) as [e|[f1 σd]]; [done|].
  rewrite !bind_run.
  destruct (Sequential_forward s2 x1 σd) as [e|[x2 σe]]; [done|].
  rewrite !bind_run.
  change (Z.of_nat 1) with 1.
  destruct (ensure_right_shape x2 B [D; H; W] 1 σe) as [e|[f2 σf]]; [done|].
  cbn [fst snd]. rewrite !bind_run.
  cbv [mret M_ret Ok]. cbn [fst snd]. rewrite !bind_run.
  destruct (Sequential_forward s3 x2 σf) as [e|[y σ']]; [done|].
  reflexivity.
Qed.

Lemma forward_steps_returns (σ : store) net n1 n2 n3 w cin s1 s2 s3 x B D H W :
  conv_ok σ (root_conv net) cin w 7 2 3 → gn_ok σ (root_gn net) 32 w →
  block_ok σ s1 n1 w (w * 4) w 1 →
  block_ok σ s2 n2 (w * 4) (w * 8) (w * 2) 2 →
  block_ok σ s3 n3 (w * 8) (w * 16) (w * 4) 2 →
  is_tensor σ x [B; cin; D; H; W] default_dtype cpu →
  0 < w → w mod 32 = 0 → 1 ≤ B →
  axis_ok D → axis_ok H → axis_ok W →
  exact_extent D → exact_extent H → exact_extent W →
  1 < B * (stage3_size D * (stage3_size H * stage3_size W)) →
  returns (forward_steps net s1 s2 s3 x B [D; H; W]) σ
          (forward_post σ B w D H W).
Proof.
  intros Hc Hg B1 B2 B3 Tx Hw Hm HB HD HH HW XD XH XW HV.
  pose proof (sizes_of_axis D HD) as SD.
  pose proof (sizes_of_axis H HH) as SH.
  pose proof (sizes_of_axis W HW) as SW.
  assert (1 < B * (stage2_size D * (stage2_size H * stage2_size W))) as HV2
    by (eapply volume_mono; [| | | |exact HV]; lia).
  assert (1 < B * (stage1_size D * (stage1_size H * stage1_size W))) as HV1
    by (eapply volume_mono; [| | | |exact HV2]; lia).
  assert (1 < B * (root_size D * (root_size H * root_size W))) as HV0
    by (eapply volume_mono; [| | | |exact HV1]; lia).
  unfold forward_steps.
  (* the root *)
  apply returns_bind. eapply returns_mono.
  { eapply root_forward_returns; try done; unfold axis_ok in *; lia. }
  intros x0 σa [[Pa T0] L0].
  (* the pooling *)
  apply returns_bind. eapply returns_mono.
  { eapply MaxPool3d_returns; [exact T0|lia..]. }
  intros xp σb [Pb Tp]. fold (stage1_size D) (stage1_size H) (stage1_size W) in Tp.
  (* block 1 and its snapshot *)
  apply returns_bind. eapply returns_mono.
  { eapply (block_forward_returns σb s1);
      [eapply block_ok_mono; [|exact B1]; by etrans|exact Tp|..];
      rewrite ?conv_size_1; first [done | lia | div_lia]. }
  intros x1 σc [Pc T1]. rewrite !conv_size_1 in T1.
  apply returns_bind. eapply returns_mono.
  { eapply ensure_right_shape_stage0; [exact T1|done..|lia]. }
  intros f1 σd [[Pd Tf1] A1].
  assert (is_tensor σd x1 [B; w * 4; stage1_size D; stage1_size H;
                           stage1_size W] default_dtype cpu) as T1d
    by (by eapply is_tensor_mono).
  (* block 2 and its snapshot *)
  apply returns_bind. eapply returns_mono.
  { eapply (block_forward_returns σd s2);
      [eapply block_ok_mono; [|exact B2]; repeat (etrans; [eassumption|]); done
      |exact T1d|..];
      rewrite ?conv_size_half; fold (stage2_size D) (stage2_size H) (stage2_size W);
      first [done | lia | div_lia]. }
  intros x2 σe [Pe T2]. rewrite !conv_size_half in T2.
  fold (stage2_size D) (stage2_size H) (stage2_size W) in T2.
  destruct (ensure_right_shape_stage1 σe x2 B _ D H W T2 HD HH HW XD XH XW)
    as [E2 Tf2].
  apply returns_bind. exists x2, σe. split; [exact E2|].
  (* block 3 *)
  apply returns_bind. eapply returns_mono.
  { eapply (block_forward_returns σe s3);
      [eapply block_ok_mono; [|exact B3]; repeat (etrans; [eassumption|]); done
      |exact T2|..];
      rewrite ?conv_size_half; fold (stage3_size D) (stage3_size H) (stage3_size W);
      first [done | lia | div_lia]. }
  intros y σ' [P' Ty]. rewrite !conv_size_half in Ty.
  fold (stage3_size D) (stage3_size H) (stage3_size W) in Ty.
  eexists _, _. split; [reflexivity|].
  assert (σd `prefix_of` σ') as Pd' by (by etrans).
  unfold forward_post. cbn [tr_root tr_stage1 tr_feat1 tr_stage2 tr_feat2 tr_out].
  split_and!.
  - repeat (etrans; [eassumption|]). done.
  - eapply is_tensor_mono; [|exact T0]. repeat (etrans; [eassumption|]). done.
  - eapply is_tensor_mono; [exact Pd'|exact T1d].
  - eapply is_tensor_mono; [exact Pd'|exact Tf1].
  - eapply is_tensor_mono; [exact P'|exact Tf2].
  - exact Ty.
  - done.
  - case_bool_decide.
    + destruct A1 as (-> & xv & r & Ex1 & -> & Hr). split.
      * destruct T1 as (? & E1 & _). apply lookup_lt_Some in E1. lia.
      * exists xv, r. split_and!; [| |done].
        -- eapply prefix_lookup_Some; [exact Ex1|]. by etrans.
        -- eapply prefix_lookup_Some; [apply lookup_snoc|done].
    + by destruct A1 as [-> _].
Qed.

End ForwardSteps.
Section Construction.
Context `{RT : Runtime}.

Abbreviation store := (list tensor).
Abbreviation loc := nat.

(** ** The constructors *)

Lemma ensures_bind {A B} (m : M A) (f : A → M B) (σ : store) Q :
  ensures m σ (λ a σ', ensures (f a) σ' Q) → ensures (m ≫= f) σ Q.
Proof.
  intros H b σ2 E. rewrite bind_run in E.
  destruct (m σ) as [e|[a σ1]] eqn:Em; [done|]. by eapply H.
Qed.

Lemma ensures_mono {A} (m : M A) (σ : store) (Q Q' : A → store → Prop) :
  ensures m σ Q → (∀ a σ', Q a σ' → Q' a σ') → ensures m σ Q'.
Proof. intros H HQ a σ' E. eauto. Qed.

Lemma ensures_mret {A} (a : A) (σ : store) (Q : A → store → Prop) :
  Q a σ → ensures (mret a) σ Q.
Proof. intros H a' σ' [= <- <-]. done. Qed.

Lemma succeeds_bind {A B} (m : M A) (f : A → M B) :
  succeeds m → (∀ a, succeeds (f a)) → succeeds (m ≫= f).
Proof.
  intros Hm Hf σ. destruct (Hm σ) as (a & σ1 & E).
  destruct (Hf a σ1) as (b & σ2 & E'). exists b, σ2.
  by rewrite (bind_ok _ _ _ _ _ E).
Qed.

Lemma succeeds_mret {A} (a : A) : succeeds (mret a).
Proof. intros σ. by eexists _, _. Qed.

Lemma returns_intro {A} (m : M A) (σ : store) Q :
  succeeds m → ensures m σ Q → returns m σ Q.
Proof. intros Hs He. destruct (Hs σ) as (a & σ' & E). exists a, σ'. eauto. Qed.

Lemma new_parameter_ensures s init (σ : store) :
  ensures (new_parameter s init) σ
    (λ l σ', σ `prefix_of` σ' ∧ is_tensor σ' l s default_dtype cpu).
Proof.
  intros l σ' E. unfold new_parameter in E.
  destruct (forallb _ s); [|done]. injection E as <- <-.
  split; [by apply prefix_app_r|]. eexists. split; [apply lookup_snoc|done].
Qed.

Lemma new_parameter_succeeds s init :
  Forall (λ n, 0 ≤ n) s → succeeds (new_parameter s init).
Proof.
  intros H σ. unfold new_parameter.
  assert (forallb (λ n, 0 <=? n) s = true) as ->.
  { apply forallb_forall. intros n Hn. apply Z.leb_le.
    by eapply (proj1 (List.Forall_forall _ _) H). }
  by eexists _, _.
Qed.

Lemma StdConv3d_init_ensures cin cout k s p (σ : store) :
  ensures (StdConv3d_init cin cout k s p false 1) σ
    (λ c σ', σ `prefix_of` σ' ∧ conv_ok σ' c cin cout k s p).
Proof.
  unfold StdConv3d_init. cbn [Z.leb Z.compare].
  rewrite !Z.mod_1_r, Z.div_1_r. cbn [Z.eqb negb].
  apply ensures_bind. eapply ensures_mono; [apply new_parameter_ensures|].
  intros w σ1 [P T] c σ2 [= <- <-]. split; [done|].
  unfold conv_ok. by split_and!.
Qed.

Lemma StdConv3d_init_succeeds cin cout k s p :
  0 ≤ cin → 0 ≤ cout → 0 ≤ k →
  succeeds (StdConv3d_init cin cout k s p false 1).
Proof.
  intros Hi Ho Hk. unfold StdConv3d_init. cbn [Z.leb Z.compare].
  rewrite !Z.mod_1_r, Z.div_1_r. cbn [Z.eqb negb].
  apply succeeds_bind; [|intros w; apply succeeds_mret].
  apply new_parameter_succeeds. by repeat constructor.
Qed.

Lemma GroupNorm_init_ensures G C eps (σ : store) :
  ensures (GroupNorm_init G C eps) σ
    (λ g σ', σ `prefix_of` σ' ∧ gn_ok σ' g G C ∧ G ≠ 0 ∧ C mod G = 0).
Proof.
  unfold GroupNorm_init.
  destruct (Z.eqb_spec G 0) as [|HG]; [done|].
  destruct (Z.eqb_spec (C mod G) 0) as [Hm|]; [|done]. cbn [negb].
  apply ensures_bind. eapply ensures_mono; [apply new_parameter_ensures|].
  intros w σ1 [P1 T1].
  apply ensures_bind. eapply ensures_mono; [apply new_parameter_ensures|].
  intros b σ2 [P2 T2] g σ3 [= <- <-].
  split; [by etrans|]. unfold gn_ok. split_and!; try done.
  by eapply is_tensor_mono.
Qed.

Lemma GroupNorm_init_succeeds G C eps :
  G ≠ 0 → C mod G = 0 → 0 ≤ C → succeeds (GroupNorm_init G C eps).
Proof.
  intros HG Hm HC. unfold GroupNorm_init.
  rewrite (proj2 (Z.eqb_neq G 0)) by done. rewrite Hm. cbn [Z.eqb negb].
  apply succeeds_bind; [apply new_parameter_succeeds; by repeat constructor|].
  intros w.
  apply succeeds_bind; [apply new_parameter_succeeds; by repeat constructor|].
  intros b. apply succeeds_mret.
Qed.

Lemma PreActBottleneck_3d_init_ensures cin cout cmid s (σ : store) :
  ensures (PreActBottleneck_3d_init cin cout cmid s) σ
    (λ u σ', σ `prefix_of` σ' ∧
       unit_ok σ' u cin (py_or cout cin)
               (py_or cmid (py_or cout cin / 4)) s ∧
       py_or cmid (py_or cout cin / 4) mod 32 = 0 ∧
       py_or cout cin mod 32 = 0).
Proof.
  unfold PreActBottleneck_3d_init, conv1x1_3d, conv3x3_3d.
  set (co := py_or cout cin). set (cm := py_or cmid (co / 4)).
  apply ensures_bind. eapply ensures_mono; [apply GroupNorm_init_ensures|].
  intros g1 σ1 (P1 & G1 & _ & Mm).
  apply ensures_bind. eapply ensures_mono; [apply StdConv3d_init_ensures|].
  intros c1 σ2 (P2 & C1).
  apply ensures_bind. eapply ensures_mono; [apply GroupNorm_init_ensures|].
  intros g2 σ3 (P3 & G2 & _).
  apply ensures_bind. eapply ensures_mono; [apply StdConv3d_init_ensures|].
  intros c2 σ4 (P4 & C2).
  apply ensures_bind. eapply ensures_mono; [apply GroupNorm_init_ensures|].
  intros g3 σ5 (P5 & G3 & _ & Mo).
  apply ensures_bind. eapply ensures_mono; [apply StdConv3d_init_ensures|].
  intros c3 σ6 (P6 & C3).
  assert (σ `prefix_of` σ6) as P06 by prefix_chain.
  assert (gn_ok σ6 g1 32 cm) by (eapply gn_ok_mono; [|exact G1]; prefix_chain).
  assert (conv_ok σ6 c1 cin cm 1 1 0)
    by (eapply conv_ok_mono; [|exact C1]; prefix_chain).
  assert (gn_ok σ6 g2 32 cm) by (eapply gn_ok_mono; [|exact G2]; prefix_chain).
  assert (conv_ok σ6 c2 cm cm 3 s 1)
    by (eapply conv_ok_mono; [|exact C2]; prefix_chain).
  assert (gn_ok σ6 g3 32 co) by (eapply gn_ok_mono; [|exact G3]; prefix_chain).
  destruct (negb (s =? 1) || negb (cin =? co)) eqn:Hproj.
  - apply ensures_bind. eapply ensures_mono; [apply StdConv3d_init_ensures|].
    intros ds σ7 (P7 & DS).
    apply ensures_bind. eapply ensures_mono; [apply GroupNorm_init_ensures|].
    intros gp σ8 (P8 & GP & _) u σ9 [= <- <-].
    assert (σ6 `prefix_of` σ8) as P68 by prefix_chain.
    split; [prefix_chain|]. split; [|done].
    unfold unit_ok. cbn [gn1 conv1 gn2 conv2 gn3 conv3 downsample gn_proj].
    split_and!; eauto using gn_ok_mono, conv_ok_mono.
    rewrite bool_decide_eq_true_2.
    + exists ds, gp. split_and!; eauto using conv_ok_mono.
    + apply orb_true_iff in Hproj as [E|E];
        apply negb_true_iff, Z.eqb_neq in E; tauto.
  - intros u σ7 [= <- <-]. split; [done|]. split; [|done].
    unfold unit_ok. cbn [gn1 conv1 gn2 conv2 gn3 conv3 downsample gn_proj].
    split_and!; try done.
    rewrite bool_decide_eq_false_2; [done|].
    apply orb_false_iff in Hproj as [E1 E2].
    apply negb_false_iff, Z.eqb_eq in E1, E2. tauto.
Qed.

Lemma PreActBottleneck_3d_init_succeeds cin cout cmid s :
  0 ≤ cin → 0 < py_or cout cin → py_or cout cin mod 32 = 0 →
  0 ≤ py_or cmid (py_or cout cin / 4) →
  py_or cmid (py_or cout cin / 4) mod 32 = 0 →
  succeeds (PreActBottleneck_3d_init cin cout cmid s).
Proof.
  intros Hi Ho Hmo Hm Hmm.
  unfold PreActBottleneck_3d_init, conv1x1_3d, conv3x3_3d.
  set (co := py_or cout cin) in *. set (cm := py_or cmid (co / 4)) in *.
  repeat (apply succeeds_bind;
          [first [apply GroupNorm_init_succeeds; [done|done|lia]
                 |apply StdConv3d_init_succeeds; lia]|intros ?]).
  destruct (_ || _).
  - apply succeeds_bind; [apply StdConv3d_init_succeeds; lia|intros ?].
    apply succeeds_bind; [|intros ?; apply succeeds_mret].
    apply GroupNorm_init_succeeds; [lia| |lia]. apply Z_mod_same_full.
  - apply succeeds_mret.
Qed.

Lemma py_or_Some a d : (a = 0 → d = 0) → py_or (Some a) d = a.
Proof. intros H. unfold py_or. destruct (Z.eqb_spec a 0); [|done]. lia. Qed.

Lemma mapM_ensures A (l : list A) next (σ : store) cout cmid :
  (∀ σ0 : store, ensures next σ0
     (λ u σ', σ0 `prefix_of` σ' ∧ unit_ok σ' u cout cout cmid 1)) →
  ensures (mapM (λ _ : A, next) l) σ
    (λ us σ', σ `prefix_of` σ' ∧ length us = length l ∧
              Forall (λ u, unit_ok σ' u cout cout cmid 1) us).
Proof.
  intros Hn. revert σ. induction l as [|a l IH]; intros σ.
  - apply ensures_mret. by split_and!.
  - cbn [mapM]. apply ensures_bind. eapply ensures_mono; [apply Hn|].
    intros u σ1 [P1 U]. apply ensures_bind.
    eapply ensures_mono; [apply IH|].
    intros us σ2 (P2 & L & F). apply ensures_mret.
    split; [by etrans|]. split; [simpl; by f_equal|].
    constructor; [by eapply unit_ok_mono|done].
Qed.

Lemma mapM_succeeds {A B} (l : list A) (next : M B) :
  succeeds next → succeeds (mapM (λ _ : A, next) l).
Proof.
  intros Hn. induction l as [|a l IH]; [apply succeeds_mret|].
  cbn [mapM]. apply succeeds_bind; [done|]. intros b.
  apply succeeds_bind; [done|]. intros bs. apply succeeds_mret.
Qed.

Lemma block_length_seqZ n :
  S (length (seqZ 2 (n + 1 - 2))) = block_length n.
Proof. rewrite length_seqZ. unfold block_length. lia. Qed.

Lemma make_block_ensures bu k first next (σ : store) cin cout cmid s :
  (∀ σ0 : store, ensures first σ0
     (λ u σ', σ0 `prefix_of` σ' ∧ unit_ok σ' u cin cout cmid s)) →
  (∀ σ0 : store, ensures next σ0
     (λ u σ', σ0 `prefix_of` σ' ∧ unit_ok σ' u cout cout cmid 1)) →
  ensures (make_block bu k first next) σ
    (λ units σ', σ `prefix_of` σ' ∧
       ∃ n, bu !! k = Some n ∧
            block_ok σ' units (block_length n) cin cout cmid s).
Proof.
  intros Hf Hn. unfold make_block.
  apply ensures_bind. eapply ensures_mono; [apply Hf|].
  intros u σ1 [P1 U]. apply ensures_bind.
  unfold index. destruct (bu !! k) as [n|] eqn:En; [|done].
  intros ? ? [= <- <-].
  apply ensures_bind.
  eapply ensures_mono; [by apply (mapM_ensures _ _ _ _ cout cmid)|].
  intros us σ2 (P2 & L & F). apply ensures_mret.
  split; [by etrans|]. exists n. split; [done|].
  exists u, us. split_and!; try done.
  - simpl. rewrite L. apply block_length_seqZ.
  - by eapply unit_ok_mono.
Qed.

Lemma make_block_succeeds bu k first next :
  succeeds first → succeeds next → is_Some (bu !! k) →
  succeeds (make_block bu k first next).
Proof.
  intros Hf Hn [n En]. unfold make_block.
  apply succeeds_bind; [done|]. intros u.
  apply succeeds_bind.
  { intros σ. unfold index. rewrite En. by eexists _, _. }
  intros n'. apply succeeds_bind; [by apply mapM_succeeds|].
  intros us. apply succeeds_mret.
Qed.

Lemma unit_init_ensures_Some cin cout cmid s (σ : store) :
  (cout = 0 → cin = 0) → (cmid = 0 → cout / 4 = 0) →
  ensures (PreActBottleneck_3d_init cin (Some cout) (Some cmid) s) σ
    (λ u σ', σ `prefix_of` σ' ∧ unit_ok σ' u cin cout cmid s).
Proof.
  intros H1 H2.
  eapply ensures_mono; [apply PreActBottleneck_3d_init_ensures|].
  intros u σ' (P & U & _).
  rewrite (py_or_Some cout cin H1) in U.
  rewrite (py_or_Some cmid (cout / 4) H2) in U. done.
Qed.

Lemma unit_init_succeeds_Some cin cout cmid s :
  0 ≤ cin → 0 < cout → cout mod 32 = 0 → 0 < cmid → cmid mod 32 = 0 →
  succeeds (PreActBottleneck_3d_init cin (Some cout) (Some cmid) s).
Proof.
  intros Hi Ho Hmo Hm Hmm.
  assert (py_or (Some cout) cin = cout) as E1 by (apply py_or_Some; lia).
  assert (py_or (Some cmid) (cout / 4) = cmid) as E2
    by (apply py_or_Some; lia).
  apply PreActBottleneck_3d_init_succeeds; rewrite ?E1, ?E2; lia.
Qed.

Lemma ResNetV2_3D_init_ensures bu wf cin (σ : store) :
  ensures (ResNetV2_3D_init bu wf cin) σ
    (λ net σ', σ `prefix_of` σ' ∧
       ∃ b1 b2 b3, bu !! 0%nat = Some b1 ∧ bu !! 1%nat = Some b2 ∧
                   bu !! 2%nat = Some b3 ∧
                   net_ok σ' net b1 b2 b3 (py_int (64 * wf)) cin).
Proof.
  unfold ResNetV2_3D_init. set (w := py_int (64 * wf)).
  apply ensures_bind. eapply ensures_mono; [apply StdConv3d_init_ensures|].
  intros c σ1 (P1 & C).
  apply ensures_bind. eapply ensures_mono; [apply GroupNorm_init_ensures|].
  intros g σ2 (P2 & G & _).
  apply ensures_bind. eapply ensures_mono.
  { apply (make_block_ensures _ _ _ _ _ w (w * 4) w 1);
      intros σ0; apply unit_init_ensures_Some; intros; div_lia. }
  intros s1 σ3 (P3 & b1 & E1 & B1).
  apply ensures_bind. eapply ensures_mono.
  { apply (make_block_ensures _ _ _ _ _ (w * 4) (w * 8) (w * 2) 2);
      intros σ0; apply unit_init_ensures_Some; intros; div_lia. }
  intros s2 σ4 (P4 & b2 & E2 & B2).
  apply ensures_bind. eapply ensures_mono.
  { apply (make_block_ensures _ _ _ _ _ (w * 8) (w * 16) (w * 4) 2);
      intros σ0; apply unit_init_ensures_Some; intros; div_lia. }
  intros s3 σ5 (P5 & b3 & E3 & B3).
  apply ensures_mret. split; [prefix_chain|].
  exists b1, b2, b3. split_and!; try done.
  unfold net_ok. cbn [width root_conv root_gn body]. split_and!; [done|..].
  - eapply conv_ok_mono; [|exact C]. prefix_chain.
  - eapply gn_ok_mono; [|exact G]. prefix_chain.
  - exists s1, s2, s3. split_and!; [done|..|done].
    + eapply block_ok_mono; [|exact B1]. prefix_chain.
    + eapply block_ok_mono; [|exact B2]. prefix_chain.
Qed.

Lemma ResNetV2_3D_init_succeeds b1 b2 b3 wf cin :
  0 ≤ cin → 0 < py_int (64 * wf) → py_int (64 * wf) mod 32 = 0 →
  succeeds (ResNetV2_3D_init [b1; b2; b3] wf cin).
Proof.
  intros Hi Hw Hm. unfold ResNetV2_3D_init. set (w := py_int (64 * wf)) in *.
  apply succeeds_bind; [apply StdConv3d_init_succeeds; lia|intros c].
  apply succeeds_bind; [apply GroupNorm_init_succeeds; lia|intros g].
  repeat (apply succeeds_bind;
          [apply make_block_succeeds;
           [apply unit_init_succeeds_Some; div_lia..|by eexists]
          |intros ?]).
  apply succeeds_mret.
Qed.

(** The backbone built from a valid configuration. *)
Lemma ResNetV2_3D_init_returns b1 b2 b3 wf cin (σ : store) :
  0 ≤ cin → 0 < py_int (64 * wf) → py_int (64 * wf) mod 32 = 0 →
  returns (ResNetV2_3D_init [b1; b2; b3] wf cin) σ
    (λ net σ', σ `prefix_of` σ' ∧
               net_ok σ' net b1 b2 b3 (py_int (64 * wf)) cin).
Proof.
  intros Hi Hw Hm.
  apply returns_intro; [by apply ResNetV2_3D_init_succeeds|].
  eapply ensures_mono; [apply ResNetV2_3D_init_ensures|].
  intros net σ' (P & c1 & c2 & c3 & [= <-] & [= <-] & [= <-] & N). done.
Qed.

Lemma py_int_floor q : 0 < Qfloor q → py_int q = Qfloor q.
Proof.
  destruct q as [n d]. unfold py_int, Qfloor. cbn [Qnum Qden]. intros H.
  apply Z.quot_div_nonneg; [|lia].
  destruct (Z.le_gt_cases 0 n) as [|Hn]; [done|].
  assert (n / Z.pos d < 0) by (apply Z.div_lt_upper_bound; lia). lia.
Qed.

End Construction.
Section Claims.
Context `{RT : Runtime}.

Abbreviation store := (list tensor).
Abbreviation loc := nat.

(** ** Shape reconciliation *)

Lemma pads3 i D H W d h w :
  pads i [D; H; W] [d; h; w]
  = [right_size i D - d; right_size i H - h; right_size i W - w].
Proof. reflexivity. Qed.

Lemma Forall3 (P : Z → Prop) a b c : Forall P [a; b; c] ↔ P a ∧ P b ∧ P c.
Proof.
  split.
  - intros H. by repeat (apply Forall_cons_1 in H as [? H]).
  - intros (? & ? & ?). by repeat constructor.
Qed.

Lemma ensure_right_shape_total (σ : store) x xv B c d h w D H W i :
  σ !! x = Some xv → shape xv = [B; c; d; h; w] →
  0 ≤ B → 0 ≤ c → 0 ≤ d → 0 ≤ h → 0 ≤ w →
  Forall (λ p, 0 ≤ p ≤ 3) (pads i [D; H; W] [d; h; w]) →
  ∃ f σ', ensure_right_shape x B [D; H; W] i σ = inr (f, σ').
Proof.
  intros Ex Es HB Hc Hd Hh Hw Hp. rewrite pads3 in Hp.
  apply Forall3 in Hp as (Pd & Ph & Pw).
  destruct (decide ([d; h; w]
                    = [right_size i D; right_size i H; right_size i W]))
    as [[= -> -> ->]|Hne].
  - eexists _, _. by eapply ensure_right_shape_same.
  - destruct (ensure_right_shape_pad σ x xv B c d h w D H W i)
      as (r & E & _); try done. by eexists _, _.
Qed.

(** The padded snapshot. *)
Lemma padded_snapshot_zero (σ : store) x xv B c d h w D H W i :
  σ !! x = Some xv → shape xv = [B; c; d; h; w] →
  0 ≤ B → 0 ≤ c → 0 ≤ d → 0 ≤ h → 0 ≤ w →
  [d; h; w] ≠ [right_size i D; right_size i H; right_size i W] →
  Forall (λ p, 0 ≤ p ≤ 3) (pads i [D; H; W] [d; h; w]) →
  ∃ r, ensure_right_shape x B [D; H; W] i σ = inr (length σ, σ ++ [r]) ∧
       ∀ idx, ¬ in_range [B; c; d; h; w] idx → data r idx = vzero.
Proof.
  intros Ex Es HB Hc Hd Hh Hw Hne Hp. rewrite pads3 in Hp.
  apply Forall3 in Hp as (Pd & Ph & Pw).
  destruct (ensure_right_shape_pad σ x xv B c d h w D H W i)
    as (r & E & Sr & Dr & _ & Hdata); try done.
  exists r. split; [done|].
  intros idx Hr. rewrite Hdata, Es.
  destruct (in_rangeb _ idx) eqn:Hb; [|done].
  by apply in_rangeb_spec in Hb.
Qed.

(** C2 (amended): for the block index [i] in {0, 1} and an input whose
    extents the default dtype holds exactly, the right spatial shape is
    [floor(original / 4 / (i + 1))] on every axis, [original] being the
    spatial shape of the input of the forward pass.  When the spatial shape
    of the block output agrees with it, the snapshot is the block output
    itself and the store is left as it was.  When it differs and the
    padding lies between 0 and 3 on every axis, the snapshot is a tensor
    allocated by the call, of shape [(batch, channels, right shape)], that
    holds the block output in its low-index corner and zero everywhere
    else; when the padding leaves that band there is no snapshot: the
    assertion error is raised.  In the forward pass the call is made on
    the output of block [i], its result is the snapshot the pass returns
    for that block, and the block output itself goes on to the next
    block. *)
Theorem C2_reconciliation_snapshot (σ : store) x xv B c d h w D H W i :
  i = 0 ∨ i = 1 →
  σ !! x = Some xv → shape xv = [B; c; d; h; w] →
  0 ≤ B → 0 ≤ c → 0 ≤ d → 0 ≤ h → 0 ≤ w →
  0 ≤ D → 0 ≤ H → 0 ≤ W →
  exact_extent D → exact_extent H → exact_extent W →
  let right := [right_size i D; right_size i H; right_size i W] in
  let pad := pads i [D; H; W] [d; h; w] in
  let call := ensure_right_shape x B [D; H; W] i σ in
  right = [D / (4 * (i + 1)); H / (4 * (i + 1)); W / (4 * (i + 1))] ∧
  ([d; h; w] = right → call = inr (x, σ)) ∧
  ([d; h; w] ≠ right → Forall (λ p, 0 ≤ p ≤ 3) pad →
   ∃ r, call = inr (length σ, σ ++ [r]) ∧
        σ !! length σ = None ∧
        shape r = B :: c :: right ∧
        (∀ idx, in_range [B; c; d; h; w] idx →
                data r idx = convert (t_dtype xv) (t_dtype r) (data xv idx)) ∧
        (∀ idx, ¬ in_range [B; c; d; h; w] idx → data r idx = vzero)) ∧
  (¬ Forall (λ p, 0 ≤ p ≤ 3) pad → call = inl AssertionError) ∧
  (∀ net s1 s2 s3 x0 xv0 c0 (σ0 σa σb : store) xr xp f (σ' : store),
     body net = [s1; s2; s3] →
     σ0 !! x0 = Some xv0 → shape xv0 = [B; c0; D; H; W] →
     root_forward net x0 σ0 = inr (xr, σa) →
     MaxPool3d_forward 3 2 0 xr σa = inr (xp, σb) →
     call = inr (f, σ') →
     (i = 0 → Sequential_forward s1 xp σb = inr (x, σ) →
      ResNetV2_3D_forward net x0 σ0
      = (x2 ← Sequential_forward s2 x;
         f2 ← ensure_right_shape x2 B [D; H; W] 1;
         y ← Sequential_forward s3 x2;
         mret (y, [f2; f; xr])) σ') ∧
     (i = 1 → ∀ x1 f1 (σc σd : store),
      Sequential_forward s1 xp σb = inr (x1, σc) →
      ensure_right_shape x1 B [D; H; W] 0 σc = inr (f1, σd) →
      Sequential_forward s2 x1 σd = inr (x, σ) →
      ResNetV2_3D_forward net x0 σ0
      = (y ← Sequential_forward s3 x; mret (y, [f; f1; xr])) σ')).
Proof.
  intros Hi Ex Es HB Hc Hd Hh Hw PD PH PW XD XH XW right pad call.
  split_and!.
  - unfold right. by rewrite !right_size_div.
  - intros [= -> -> ->]. by eapply ensure_right_shape_same.
  - intros Hne Hp. unfold pad in Hp. rewrite pads3 in Hp.
    apply Forall3 in Hp as (Pd & Ph & Pw).
    destruct (ensure_right_shape_pad σ x xv B c d h w D H W i)
      as (r & E & Sr & Dr & _ & Hdata); try done.
    exists r. split_and!; [done| |done|..].
    + by apply lookup_ge_None.
    + intros idx Hr. rewrite Hdata, Es, Dr.
      by rewrite (proj2 (in_rangeb_spec _ _) Hr).
    + intros idx Hr. rewrite Hdata, Es.
      destruct (in_rangeb _ idx) eqn:Hb; [|done].
      by apply in_rangeb_spec in Hb.
  - intros Hp. eapply ensure_right_shape_assert; [done..|].
    intros (? & ? & ?). apply Hp. unfold pad. rewrite pads3.
    by apply Forall3.
  - intros net s1 s2 s3 x0 xv0 c0 σ0 σa σb xr xp f σ' Eb Ex0 Es0 Er Ep Ec.
    unfold call in Ec.
    pose proof (forward_unroll σ0 net s1 s2 s3 x0 xv0 B c0 D H W Eb Ex0 Es0)
      as Eu.
    unfold forward_steps in Eu. rewrite !bind_run, Er in Eu.
    rewrite !bind_run, Ep in Eu. split.
    + intros -> E1. rewrite !bind_run, E1 in Eu.
      rewrite !bind_run, Ec in Eu. rewrite Eu, !bind_run.
      destruct (Sequential_forward s2 x σ') as [e|[x2 σe]]; [done|].
      rewrite !bind_run.
      destruct (ensure_right_shape x2 B [D; H; W] 1 σe) as [e|[f2 σf]];
        [done|].
      rewrite !bind_run.
      by destruct (Sequential_forward s3 x2 σf) as [e|[y σg]].
    + intros -> x1 f1 σc σd E1 Ef1 E2.
      rewrite !bind_run, E1 in Eu. rewrite !bind_run, Ef1 in Eu.
      rewrite !bind_run, E2 in Eu. rewrite !bind_run, Ec in Eu.
      rewrite Eu, !bind_run.
      by destruct (Sequential_forward s3 x σ') as [e|[y σg]].
Qed.

(** C5: the reconciliation of a block output raises the assertion error
    exactly when the padding is negative or larger than 3 on some axis: a
    difference of 3 on an axis passes, and the padded region is zero; a
    difference of 4, or a negative one, raises it.  The error raised for
    either block index is the outcome of the forward pass. *)
Theorem C5_shape_mismatch_assertion (σ : store) x xv B c d h w D H W i :
  σ !! x = Some xv → shape xv = [B; c; d; h; w] →
  0 ≤ B → 0 ≤ c → 0 ≤ d → 0 ≤ h → 0 ≤ w →
  let pad := pads i [D; H; W] [d; h; w] in
  let call := ensure_right_shape x B [D; H; W] i σ in
  (call = inl AssertionError ↔ Exists (λ p, p < 0 ∨ 3 < p) pad) ∧
  (Forall (λ p, 0 ≤ p ≤ 3) pad → Exists (λ p, p = 3) pad →
   ∃ r, call = inr (length σ, σ ++ [r]) ∧
        ∀ idx, ¬ in_range [B; c; d; h; w] idx → data r idx = vzero) ∧
  (Exists (λ p, p = 4) pad → call = inl AssertionError) ∧
  (Exists (λ p, p < 0) pad → call = inl AssertionError) ∧
  (∀ net s1 s2 s3 x0 xv0 c0 (σ0 σa σb : store) xr xp,
     body net = [s1; s2; s3] →
     σ0 !! x0 = Some xv0 → shape xv0 = [B; c0; D; H; W] →
     root_forward net x0 σ0 = inr (xr, σa) →
     MaxPool3d_forward 3 2 0 xr σa = inr (xp, σb) →
     (i = 0 → Sequential_forward s1 xp σb = inr (x, σ) →
      call = inl AssertionError →
      ResNetV2_3D_forward net x0 σ0 = inl AssertionError) ∧
     (i = 1 → ∀ x1 f1 (σc σd : store),
      Sequential_forward s1 xp σb = inr (x1, σc) →
      ensure_right_shape x1 B [D; H; W] 0 σc = inr (f1, σd) →
      Sequential_forward s2 x1 σd = inr (x, σ) →
      call = inl AssertionError →
      ResNetV2_3D_forward net x0 σ0 = inl AssertionError)).
Proof.
  intros Ex Es HB Hc Hd Hh Hw pad call.
  assert (Exists (λ p, p < 0 ∨ 3 < p) pad → call = inl AssertionError) as Hbad.
  { intros Hp. eapply ensure_right_shape_assert; [done..|].
    unfold pad, pad_ok in *. rewrite pads3 in Hp.
    intros (? & ? & ?).
    repeat (apply Exists_cons in Hp as [?|Hp]; [lia|]).
    by apply Exists_nil in Hp. }
  split_and!.
  - split; [|done]. intros E.
    destruct (decide (Forall (λ p, 0 ≤ p ≤ 3) pad)) as [Hok|Hnok].
    + destruct (ensure_right_shape_total σ x xv B c d h w D H W i)
        as (f & σ' & E'); try done. unfold call in E. congruence.
    + apply not_Forall_Exists in Hnok; [|intros p; apply _].
      revert Hnok. apply Exists_impl. intros p Hp. simpl in Hp. lia.
  - intros Hok H3. unfold pad in *. rewrite pads3 in Hok, H3.
    destruct (padded_snapshot_zero σ x xv B c d h w D H W i) as (r & E & Hr); try done.
    + intros [= -> -> ->].
      repeat (apply Exists_cons in H3 as [?|H3]; [lia|]).
      by apply Exists_nil in H3.
    + by exists r.
  - intros H4. apply Hbad. revert H4. apply Exists_impl. intros p ?. lia.
  - intros H4. apply Hbad. revert H4. apply Exists_impl. intros p ?. lia.
  - intros net s1 s2 s3 x0 xv0 c0 σ0 σa σb xr xp Eb Ex0 Es0 Er Ep.
    pose proof (forward_unroll σ0 net s1 s2 s3 x0 xv0 B c0 D H W Eb Ex0 Es0)
      as Eu.
    unfold forward_steps in Eu. rewrite !bind_run, Er in Eu.
    rewrite !bind_run, Ep in Eu. split.
    + intros -> E1 Ec. unfold call in Ec.
      rewrite !bind_run, E1 in Eu. by rewrite !bind_run, Ec in Eu.
    + intros -> x1 f1 σc σd E1 Ef1 E2 Ec. unfold call in Ec.
      rewrite !bind_run, E1 in Eu. rewrite !bind_run, Ef1 in Eu.
      rewrite !bind_run, E2 in Eu. by rewrite !bind_run, Ec in Eu.
Qed.

End Claims.
Section ClaimsUnits.
Context `{RT : Runtime}.

Abbreviation store := (list tensor).
Abbreviation loc := nat.

(** C10: a padded snapshot is allocated on the device of the block output
    and in the default dtype of the runtime, so that it departs from the
    dtype of a block output computed in another dtype; a snapshot that needs
    no padding is the block output itself and keeps its dtype. *)
Theorem C10_padded_snapshot_dtype (σ : store) x xv B c d h w D H W i :
  σ !! x = Some xv → shape xv = [B; c; d; h; w] →
  0 ≤ B → 0 ≤ c → 0 ≤ d → 0 ≤ h → 0 ≤ w →
  let right := [right_size i D; right_size i H; right_size i W] in
  ([d; h; w] ≠ right →
   Forall (λ p, 0 ≤ p ≤ 3) (pads i [D; H; W] [d; h; w]) →
   ∃ r, ensure_right_shape x B [D; H; W] i σ = inr (length σ, σ ++ [r]) ∧
        t_device r = t_device xv ∧ t_dtype r = default_dtype ∧
        (t_dtype xv ≠ default_dtype → t_dtype r ≠ t_dtype xv)) ∧
  ([d; h; w] = right →
   ∃ l σ', ensure_right_shape x B [D; H; W] i σ = inr (l, σ') ∧
           σ' !! l = Some xv).
Proof.
  intros Ex Es HB Hc Hd Hh Hw right. split.
  - intros Hne Hp. rewrite pads3 in Hp. apply Forall3 in Hp as (Pd & Ph & Pw).
    destruct (ensure_right_shape_pad σ x xv B c d h w D H W i)
      as (r & E & Sr & Dr & Vr & _); try done.
    exists r. split_and!; try done. congruence.
  - intros [= -> -> ->]. exists x, σ. split; [|done].
    by eapply ensure_right_shape_same.
Qed.

(** C9: the constructor applies its defaults by the truth value of the
    argument: [cout = 0] builds what a missing [cout] builds, a unit with
    [cout = cin], and [cmid = 0] builds what a missing [cmid] builds, a unit
    with [cmid = cout // 4] for the [cout] in use; an argument other than 0
    is kept as it is. *)
Theorem C9_zero_is_unspecified cin cout cmid s (σ : store) u σ' :
  PreActBottleneck_3d_init cin cout cmid s σ = inr (u, σ') →
  (∀ cmid', PreActBottleneck_3d_init cin (Some 0) cmid' s
            = PreActBottleneck_3d_init cin None cmid' s) ∧
  (∀ cout', PreActBottleneck_3d_init cin cout' (Some 0) s
            = PreActBottleneck_3d_init cin cout' None s) ∧
  (cout = Some 0 →
   PreActBottleneck_3d_init cin None cmid s σ = inr (u, σ')) ∧
  (cmid = Some 0 →
   PreActBottleneck_3d_init cin cout None s σ = inr (u, σ')) ∧
  (cout = None ∨ cout = Some 0 → unit_cout u = cin) ∧
  (∀ c, cout = Some c → c ≠ 0 → unit_cout u = c) ∧
  (cmid = None ∨ cmid = Some 0 → unit_cmid u = unit_cout u / 4) ∧
  (∀ c, cmid = Some c → c ≠ 0 → unit_cmid u = c).
Proof.
  intros E.
  pose proof (PreActBottleneck_3d_init_ensures _ _ _ _ _ _ _ E)
    as (_ & (_ & C1 & _ & _ & _ & C3 & _) & _).
  assert (unit_cout u = py_or cout cin) as Eo by apply C3.
  assert (unit_cmid u = py_or cmid (py_or cout cin / 4)) as Em by apply C1.
  split_and!; try done.
  - by intros ->.
  - by intros ->.
  - by intros [-> | ->].
  - intros c -> Hc. rewrite Eo. simpl.
    by rewrite (proj2 (Z.eqb_neq c 0)).
  - rewrite Eo, Em. by intros [-> | ->].
  - intros c -> Hc. rewrite Em. simpl.
    by rewrite (proj2 (Z.eqb_neq c 0)).
Qed.

(** ** np2th *)

(** C8 (amended): with [conv=True], [np2th] turns a four-axis array laid
    out as (kH, kW, I, O) into the tensor laid out as (O, I, kH, kW); the
    permutation has four axes, and an array with five axes is refused with
    a ValueError. *)
Theorem C8_np2th_four_axes (σ : store) (a : ndarray) kh kw ci co :
  nd_shape a = [kh; kw; ci; co] →
  (∃ t, np2th a true σ = inr (length σ, σ ++ [t]) ∧
        shape t = [co; ci; kh; kw] ∧
        ∀ o i h w, data t [o; i; h; w] = nd_data a [h; w; i; o]) ∧
  (∀ (a5 : ndarray) kd kh' kw' ci' co',
     nd_shape a5 = [kd; kh'; kw'; ci'; co'] →
     np2th a5 true σ = inl ValueError).
Proof.
  intros Ea. split.
  - unfold np2th, transpose. rewrite Ea. eexists. split; [reflexivity|].
    split; reflexivity.
  - intros a5 kd kh' kw' ci' co' E5. unfold np2th, transpose. by rewrite E5.
Qed.

(** ** StdConv3d *)

(** C3: a call of StdConv3d.forward convolves the input with the weight
    [W' = (W − μ) / sqrt(σ² + 1e-5)], where [μ] and [σ²] are the mean and
    the biased variance (the sum of squared deviations divided by the
    number of entries) of each output filter of the stored weight [W] over
    its (I, kD, kH, kW) axes; the bias is passed to the convolution as it
    is stored; the stored weight and bias are the same after the call. *)
Theorem C3_standardized_convolution (σ : store) c x xv W O ci kd kh kw bv :
  σ !! x = Some xv → σ !! weight c = Some W →
  shape W = [O; ci; kd; kh; kw] → param_opt σ (bias c) = Ok bv →
  ∃ W', is_standardized W W' ∧
    refines (StdConv3d_forward c x) σ
      (conv3d_val xv W' bv (stride c) (padding c) (dilation c) (groups c))
      (λ l σ' out, σ' !! l = Some out ∧ σ `prefix_of` σ' ∧
                   σ' !! weight c = Some W ∧ param_opt σ' (bias c) = Ok bv).
Proof.
  intros Ex EW Es Eb.
  destruct (standardize_val_spec W _ _ _ _ _ Es) as (W' & EW' & HW').
  exists W'. split; [done|].
  pose proof (StdConv3d_forward_refines c x xv W bv σ Ex EW Eb) as R.
  rewrite EW' in R. cbn [mbind result_bind Ok] in R.
  eapply refines_mono; [exact R|].
  intros l σ' out (P & _ & El). split_and!; try done.
  - by eapply prefix_lookup_Some.
  - destruct (bias c) as [b|]; [|done]. cbn [param_opt] in *.
    unfold param in *. destruct (σ !! b) as [t|] eqn:Et; [|done].
    by rewrite (prefix_lookup_Some _ _ _ _ Et P).
Qed.

(** ** PreActBottleneck_3d *)

(** C4: in a unit built from [(cin, cout, cmid, stride)], the residual is
    the projection of the input (a bias-free 1×1×1 standardized convolution
    of the given stride to [cout] channels, then a group normalisation with
    [cout] groups) exactly when [stride ≠ 1] or [cin ≠ cout], and the input
    itself otherwise; the branch is conv 1×1×1 to [cmid], 32-group norm,
    activation, conv 3×3×3 carrying the stride, 32-group norm, activation,
    conv 1×1×1 to [cout], 32-group norm; the output is the activation of
    the sum of the residual and the branch. *)
Theorem C4_bottleneck_forward cin cout cmid s (σ0 : store) u σ1 :
  PreActBottleneck_3d_init cin cout cmid s σ0 = inr (u, σ1) →
  let co := py_or cout cin in
  let cm := py_or cmid (co / 4) in
  conv_ok σ1 (conv1 u) cin cm 1 1 0 ∧ gn_ok σ1 (gn1 u) 32 cm ∧
  conv_ok σ1 (conv2 u) cm cm 3 s 1 ∧ gn_ok σ1 (gn2 u) 32 cm ∧
  conv_ok σ1 (conv3 u) cm co 1 1 0 ∧ gn_ok σ1 (gn3 u) 32 co ∧
  ((s ≠ 1 ∨ cin ≠ co) →
   ∃ ds g, downsample u = Some ds ∧ gn_proj u = Some g ∧
           conv_ok σ1 ds cin co 1 s 0 ∧ gn_ok σ1 g co co ∧
           ∀ xv, residual_spec σ1 u xv
                 = (r ← conv_spec σ1 ds xv; gn_spec σ1 g r)) ∧
  (¬ (s ≠ 1 ∨ cin ≠ co) → ∀ xv, residual_spec σ1 u xv = Ok xv) ∧
  ∀ (σ : store) x xv, σ1 `prefix_of` σ → σ !! x = Some xv →
    refines (PreActBottleneck_3d_forward u x) σ
      (residual ← residual_spec σ1 u xv;
       y ← unit_branch_spec σ1 u xv;
       sum ← add_val residual y;
       Ok (relu_val sum))
      (λ l σ' out, σ' !! l = Some out ∧ σ `prefix_of` σ').
Proof.
  intros E co cm.
  apply PreActBottleneck_3d_init_ensures in E as (P & U & _).
  fold co cm in U. pose proof U as (G1 & C1 & G2 & C2 & G3 & C3 & DS).
  split_and!; try done.
  - intros Hp. rewrite bool_decide_eq_true_2 in DS by done.
    destruct DS as (ds & g & Eds & Eg & ? & ?). exists ds, g.
    split_and!; try done. intros xv. unfold residual_spec.
    by rewrite Eds, Eg.
  - intros Hp. rewrite bool_decide_eq_false_2 in DS by done.
    destruct DS as [Eds _]. intros xv. unfold residual_spec. by rewrite Eds.
  - intros σ x xv Pσ Ex.
    eapply refines_mono.
    { apply (PreActBottleneck_3d_forward_refines σ1 σ u x xv Pσ); [|done].
      by eapply unit_ok_alloc. }
    intros l σ' out (? & _ & ?). done.
Qed.

(** ** The blocks of the backbone *)

Lemma unit_ok_layout (σ : store) u cin cout cmid s :
  unit_ok σ u cin cout cmid s →
  unit_cin u = cin ∧ unit_cout u = cout ∧ unit_cmid u = cmid ∧
  unit_stride u = s.
Proof.
  intros (_ & C1 & _ & C2 & _ & C3 & _).
  unfold unit_cin, unit_cout, unit_cmid, unit_stride.
  split_and!; [apply C1|apply C3|apply C1|apply C2].
Qed.

Lemma block_ok_layout (σ : store) units n cin cout cmid s :
  block_ok σ units n cin cout cmid s → block_layout units n cin cout cmid s.
Proof.
  intros (u & rest & -> & L & U & F). split; [done|]. exists u, rest.
  split; [done|].
  destruct (unit_ok_layout _ _ _ _ _ _ U) as (? & ? & ? & ?).
  split_and!; try done.
  eapply Forall_impl; [|exact F]. intros u'. apply unit_ok_layout.
Qed.

(** C7 (amended): the block [k] of the backbone built from a valid
    configuration holds [max(b_k, 1)] units; its first unit has the stride
    of the block (1, 2, 2) and takes the width to
    [width * 4 * 2^(k−1)] output channels with a quarter of it as middle
    channels, where [width = int(64 * width_factor)]; the following units
    have stride 1 and keep both counts. *)
Theorem C7_block_layout b1 b2 b3 wf cin (σ0 : store) :
  let w := py_int (64 * wf) in
  0 ≤ cin → 0 < w → w mod 32 = 0 →
  returns (ResNetV2_3D_init [b1; b2; b3] wf cin) σ0
    (λ net _, width net = w ∧
       ∃ s1 s2 s3, body net = [s1; s2; s3] ∧
         block_layout s1 (Z.to_nat (Z.max b1 1)) w (w * 4) w 1 ∧
         block_layout s2 (Z.to_nat (Z.max b2 1)) (w * 4) (w * 8) (w * 2) 2 ∧
         block_layout s3 (Z.to_nat (Z.max b3 1)) (w * 8) (w * 16) (w * 4) 2).
Proof.
  intros w Hi Hw Hm.
  eapply returns_mono; [by apply ResNetV2_3D_init_returns|].
  intros net σ' (_ & Ew & _ & _ & s1 & s2 & s3 & Eb & B1 & B2 & B3).
  split; [done|]. exists s1, s2, s3. split; [done|].
  unfold block_length in *. rewrite !(Z.max_comm _ 1).
  split_and!; by eapply block_ok_layout.
Qed.

End ClaimsUnits.
Section ClaimsForward.
Context `{RT : Runtime}.

Abbreviation store := (list tensor).
Abbreviation loc := nat.

(** ** The forward pass *)

Lemma forward_steps_inv (σ : store) net s1 s2 s3 x B orig tr σ' :
  forward_steps net s1 s2 s3 x B orig σ = inr (tr, σ') →
  runs_as net s1 s2 s3 x B orig σ tr σ'.
Proof.
  unfold forward_steps. intros E.
  rewrite bind_run in E.
  destruct (root_forward net x σ) as [|[x0 σa]] eqn:Er; [done|].
  rewrite bind_run in E.
  destruct (MaxPool3d_forward 3 2 0 x0 σa) as [|[xp σb]] eqn:Ep; [done|].
  rewrite bind_run in E.
  destruct (Sequential_forward s1 xp σb) as [|[x1 σc]] eqn:E1; [done|].
  rewrite bind_run in E.
  destruct (ensure_right_shape x1 B orig 0 σc) as [|[f1 σd]] eqn:Ef1; [done|].
  rewrite bind_run in E.
  destruct (Sequential_forward s2 x1 σd) as [|[x2 σe]] eqn:E2; [done|].
  rewrite bind_run in E.
  destruct (ensure_right_shape x2 B orig 1 σe) as [|[f2 σf]] eqn:Ef2; [done|].
  rewrite bind_run in E.
  destruct (Sequential_forward s3 x2 σf) as [|[y σg]] eqn:E3; [done|].
  injection E as <- <-. exists σa, σb, σc, σd, σe, σf.
  cbn [tr_root tr_pool tr_stage1 tr_feat1 tr_stage2 tr_feat2 tr_out].
  by split_and!.
Qed.

(** The forward pass of a well-formed backbone on an accepted input. *)
Lemma forward_returns (σ : store) net b1 b2 b3 w cin x B D H W :
  net_ok σ net b1 b2 b3 w cin →
  is_tensor σ x [B; cin; D; H; W] default_dtype cpu →
  0 < w → w mod 32 = 0 → 1 ≤ B →
  axis_ok D → axis_ok H → axis_ok W →
  exact_extent D → exact_extent H → exact_extent W →
  1 < B * (stage3_size D * (stage3_size H * stage3_size W)) →
  ∃ s1 s2 s3 tr σ',
    body net = [s1; s2; s3] ∧
    runs_as net s1 s2 s3 x B [D; H; W] σ tr σ' ∧
    ResNetV2_3D_forward net x σ
    = inr ((tr_out tr, [tr_feat2 tr; tr_feat1 tr; tr_root tr]), σ') ∧
    forward_post σ B w D H W tr σ'.
Proof.
  intros (_ & Hc & Hg & s1 & s2 & s3 & Eb & B1 & B2 & B3) Tx Hw Hm HB
         HD HH HW XD XH XW HV.
  destruct (forward_steps_returns σ net (block_length b1) (block_length b2)
              (block_length b3) w cin s1 s2 s3 x B D H W)
    as (tr & σ' & E & Hpost); try done.
  exists s1, s2, s3, tr, σ'. split; [done|].
  split; [by apply forward_steps_inv|]. split; [|done].
  destruct Tx as (xv & Ex & Es & _).
  rewrite (forward_unroll σ net s1 s2 s3 x xv B cin D H W Eb Ex Es).
  by rewrite bind_run, E.
Qed.

(** C1 (amended): for a valid configuration (at least one input channel,
    a positive width [floor(64 * width_factor)] that is a multiple of 32)
    and an input of shape [(batch, input_channels, D, H, W)] in the dtype
    and on the device of the parameters, each of [D], [H], [W] being at
    least 8, congruent to 0, 1, 2, 3 or 4 modulo 8 and held exactly by the
    default dtype (below [2^24] for float32), and the output of block 3
    holding more than one voxel over the batch, the forward pass
    returns the output of block 3, with [16 * width] channels, and the
    list [block-2 snapshot, block-1 snapshot, root output], with
    [8 * width], [4 * width] and [width] channels; the root output is
    recorded before the max-pooling and block 3 is not recorded. *)
Theorem C1_forward_result b1 b2 b3 wf cin (σ0 : store) :
  let w := Qfloor (64 * wf) in
  1 ≤ cin → 0 < w → w mod 32 = 0 →
  ∃ net σ1,
    ResNetV2_3D_init [b1; b2; b3] wf cin σ0 = inr (net, σ1) ∧
    ∀ (σ : store) x B D H W,
      σ1 `prefix_of` σ →
      is_tensor σ x [B; cin; D; H; W] default_dtype cpu →
      1 ≤ B → axis_ok D → axis_ok H → axis_ok W →
      exact_extent D → exact_extent H → exact_extent W →
      1 < B * (stage3_size D * (stage3_size H * stage3_size W)) →
      ∃ s1 s2 s3 tr σ',
        body net = [s1; s2; s3] ∧
        runs_as net s1 s2 s3 x B [D; H; W] σ tr σ' ∧
        ResNetV2_3D_forward net x σ
        = inr ((tr_out tr, [tr_feat2 tr; tr_feat1 tr; tr_root tr]), σ') ∧
        is_tensor σ' (tr_out tr)
          [B; w * 16; stage3_size D; stage3_size H; stage3_size W]
          default_dtype cpu ∧
        is_tensor σ' (tr_feat2 tr) [B; w * 8; D / 8; H / 8; W / 8]
          default_dtype cpu ∧
        is_tensor σ' (tr_feat1 tr) [B; w * 4; D / 4; H / 4; W / 4]
          default_dtype cpu ∧
        is_tensor σ' (tr_root tr)
          [B; w; root_size D; root_size H; root_size W] default_dtype cpu.
Proof.
  intros w Hi Hw Hm. unfold w in *. clear w.
  pose proof (py_int_floor _ Hw) as Ew. rewrite <- Ew in Hw, Hm |- *.
  destruct (ResNetV2_3D_init_returns b1 b2 b3 wf cin σ0)
    as (net & σ1 & E & P & N); [lia|done|done|].
  exists net, σ1. split; [done|].
  intros σ x B D H W Pσ Tx HB HD HH HW XD XH XW HV.
  assert (net_ok σ net b1 b2 b3 (py_int (64 * wf)) cin) as Nσ.
  { destruct N as (? & ? & ? & s1 & s2 & s3 & ? & ? & ? & ?).
    unfold net_ok. split_and!; try done;
      [by eapply conv_ok_mono|by eapply gn_ok_mono|].
    exists s1, s2, s3. split_and!; try done; by eapply block_ok_mono. }
  destruct (forward_returns σ net _ _ _ _ _ x B D H W Nσ Tx)
    as (s1 & s2 & s3 & tr & σ' & Eb & Hr & Ef & Hp); try done.
  exists s1, s2, s3, tr, σ'.
  destruct Hp as (_ & T0 & _ & T1 & T2 & T3 & _).
  by split_and!.
Qed.

(** C6 (amended): on an input the forward pass accepts, whose extents the
    default dtype holds exactly (below [2^24] for float32), the
    reconciliation of block index 1 is a no-op, in particular when every
    axis is divisible by 8: the snapshot is the block output.  The
    reconciliation of block index 0 is a no-op exactly when no axis is
    divisible by 4: on an axis divisible by 4 the block output is one voxel
    short of the right shape, and the snapshot is another tensor, the block
    output padded with zeros. *)
Theorem C6_reconciliation_noop b1 b2 b3 wf cin (σ0 : store) net σ1
    (σ : store) x B D H W :
  ResNetV2_3D_init [b1; b2; b3] wf cin σ0 = inr (net, σ1) →
  0 < width net → width net mod 32 = 0 →
  σ1 `prefix_of` σ →
  is_tensor σ x [B; cin; D; H; W] default_dtype cpu →
  1 ≤ B → axis_ok D → axis_ok H → axis_ok W →
  exact_extent D → exact_extent H → exact_extent W →
  1 < B * (stage3_size D * (stage3_size H * stage3_size W)) →
  ∃ s1 s2 s3 tr σ',
    body net = [s1; s2; s3] ∧
    runs_as net s1 s2 s3 x B [D; H; W] σ tr σ' ∧
    tr_feat2 tr = tr_stage2 tr ∧
    (tr_feat1 tr = tr_stage1 tr ↔
     ¬ (D mod 4 = 0 ∨ H mod 4 = 0 ∨ W mod 4 = 0)) ∧
    ((D mod 4 = 0 ∨ H mod 4 = 0 ∨ W mod 4 = 0) →
     ∃ x1 r, σ' !! tr_stage1 tr = Some x1 ∧ σ' !! tr_feat1 tr = Some r ∧
             shape x1 = [B; width net * 4; stage1_size D; stage1_size H;
                         stage1_size W] ∧
             is_padded x1 [B; width net * 4; D / 4; H / 4; W / 4] r).
Proof.
  intros E Hw Hm Pσ Tx HB HD HH HW XD XH XW HV.
  apply ResNetV2_3D_init_ensures in E
    as (_ & c1 & c2 & c3 & [= <-] & [= <-] & [= <-] & N).
  assert (width net = py_int (64 * wf)) as Ew by apply N.
  rewrite Ew in *.
  assert (net_ok σ net b1 b2 b3 (py_int (64 * wf)) cin) as Nσ.
  { destruct N as (? & ? & ? & s1 & s2 & s3 & ? & ? & ? & ?).
    unfold net_ok. split_and!; try done;
      [by eapply conv_ok_mono|by eapply gn_ok_mono|].
    exists s1, s2, s3. split_and!; try done; by eapply block_ok_mono. }
  destruct (forward_returns σ net _ _ _ _ _ x B D H W Nσ Tx)
    as (s1 & s2 & s3 & tr & σ' & Eb & Hr & Ef & Hp); try done.
  exists s1, s2, s3, tr, σ'.
  destruct Hp as (_ & _ & T1 & _ & _ & _ & E2 & A1).
  split_and!; try done.
  - case_bool_decide as Hd.
    + destruct A1 as [Hne _]. split; [done|]. tauto.
    + split; [done|]. intros _. done.
  - intros Hd. rewrite bool_decide_eq_true_2 in A1 by done.
    destruct A1 as (_ & x1 & r & Ex1 & Er & Hpad).
    exists x1, r. split_and!; try done.
    destruct T1 as (x1' & Ex1' & Es & _). congruence.
Qed.

End ClaimsForward.
Section Frames.
Context `{RT : Runtime}.

Abbreviation store := (list tensor).
Abbreviation loc := nat.

(** ** What a run that returns went through *)







(** ** Allocation *)






(** ** The runtime operations allocate their result *)




















End Frames.
Section Outcomes.
Context `{RT : Runtime}.

Abbreviation store := (list tensor).
Abbreviation loc := nat.

(** ** Refused inputs, on values *)


(** A run that refines a value returns when the value is there, and fails
    as the value fails. *)
Lemma refines_Ok {A B} (m : M A) (σ : store) (b : B) R :
  refines m σ (Ok b) R → ∃ a σ', m σ = inr (a, σ') ∧ R a σ' b.
Proof. done. Qed.

Lemma refines_Raise {A B} (m : M A) (σ : store) e (R : A → store → B → Prop) :
  refines m σ (Raise e) R → m σ = inl e.
Proof. done. Qed.





(** ** Refused inputs, in the store *)





End Outcomes.
Section Layers.
Context `{RT : Runtime}.

Abbreviation store := (list tensor).
Abbreviation loc := nat.

(** ** The convolutions of the units *)




(** ** The constructor of a unit *)



(** ** The forward pass of a unit *)






End Layers.
Section Edges.
Context `{RT : Runtime}.

Abbreviation store := (list tensor).
Abbreviation loc := nat.

(** ** np2th *)



(** ** ensure_right_shape *)


(** ** The constructor of the backbone *)




End Edges.
Section Domain.
Context `{RT : Runtime}.

Abbreviation store := (list tensor).
Abbreviation loc := nat.

(** ** The extents along the backbone, for an axis the pooling accepts *)




(** ** The root and the pooling *)






(** ** The blocks *)



End Domain.
Section ForwardOutcome.
Context `{RT : Runtime}.

Abbreviation store := (list tensor).
Abbreviation loc := nat.

(** ** The outcome of the forward pass *)





Section Run.
Variables (net : ResNetV2_3D) (b1 b2 b3 w cin : Z).
Variables (σ : store) (x : loc) (B D H W : Z).
Hypothesis N : net_ok σ net b1 b2 b3 w cin.
Hypothesis Tx : is_tensor σ x [B; cin; D; H; W] default_dtype cpu.
Hypothesis Hw : 0 < w.
Hypothesis Hm : w mod 32 = 0.
Hypothesis HB : 1 ≤ B.

Local Abbreviation vol f := (B * (f D * (f H * f W))).





Hypothesis XD : exact_extent D.
Hypothesis XH : exact_extent H.
Hypothesis XW : exact_extent W.









End Run.

End ForwardOutcome.
Section ForwardDomain.
Context `{RT : Runtime}.

Abbreviation store := (list tensor).
Abbreviation loc := nat.

(** ** Which inputs the forward pass accepts *)











End ForwardDomain.
(** * The claims at concrete inputs *)

Lemma C1_forward_result_witness :
  ∃ net σ1 primary skips σ',
    ResNetV2_3D_init (RT := Zruntime) [3; 4; 9] 1 1 [] = inr (net, σ1) ∧
    ResNetV2_3D_forward net (length σ1)
      (σ1 ++ [demo_input [1; 1; 90; 192; 192]])
    = inr ((primary, skips), σ') ∧
    length skips = 3%nat ∧
    is_tensor σ' primary [1; 1024; 6; 12; 12] float32 cpu.
Proof.
  destruct (C1_forward_result (RT := Zruntime) 3 4 9 1 1 [])
    as (net & σ1 & E & F); [lia|reflexivity|reflexivity|].
  destruct (F (σ1 ++ [demo_input [1; 1; 90; 192; 192]]) (length σ1)
              1 90 192 192)
    as (s1 & s2 & s3 & tr & σ' & _ & _ & Ef & T & _).
  - apply prefix_app_r. reflexivity.
  - eexists. split; [apply lookup_snoc|]. repeat split.
  - lia.
  - split; [lia|discriminate].
  - split; [lia|discriminate].
  - split; [lia|discriminate].
  - split; reflexivity.
  - split; reflexivity.
  - split; reflexivity.
  - reflexivity.
  - exists net, σ1, (tr_out tr), [tr_feat2 tr; tr_feat1 tr; tr_root tr], σ'.
    split; [exact E|]. split; [exact Ef|]. split; [reflexivity|exact T].
Defined.

(** C1, as stated, fails on an input whose depth is 93: the backbone of
    the configuration ((3, 4, 9), 1, 1) is built, every axis of the input is
    at least 7, and the forward pass raises the assertion error of the
    reconciliation (of block index 1). *)
Lemma C1_counterexample :
  Forall (λ n, 7 ≤ n) [93; 192; 192] ∧
  demo_forward [3; 4; 9] 1 1 [1; 1; 93; 192; 192] = Ok (Raise AssertionError).
Proof.
  split; [repeat constructor; lia|]. vm_compute. reflexivity.
Qed.

(** A single voxel per group is refused by the group normalisation: with
    a batch of one, the 8×8×8 input leaves one voxel after the pooling. *)
Example forward_single_voxel :
  demo_forward [1; 1; 1] (1 # 2) 1 [1; 1; 8; 8; 8] = Ok (Raise ValueError) ∧
  demo_forward [1; 1; 1] (1 # 2) 1 [2; 1; 8; 8; 8]
  = Ok (Ok (Some [2; 512; 1; 1; 1],
            [Some [2; 256; 1; 1; 1]; Some [2; 128; 2; 2; 2];
             Some [2; 32; 4; 4; 4]])).
Proof. split; vm_compute; reflexivity. Qed.

(** The self-test of the source file. *)
Example forward_self_test :
  demo_forward [3; 4; 9] 1 1 [1; 1; 90; 192; 192]
  = Ok (Ok (Some [1; 1024; 6; 12; 12],
            [Some [1; 512; 11; 24; 24]; Some [1; 256; 22; 48; 48];
             Some [1; 64; 45; 96; 96]])).
Proof. vm_compute. reflexivity. Qed.

(** Beyond the significand of the default dtype the right extent is not
    the quotient of the integers: float32 holds 16777219 as 16777220. *)
Example right_size_rounds :
  right_size (RT := Zruntime) 0 16777219 = 4194305 ∧
  16777219 / 4 = 4194304 ∧
  right_size (RT := Zruntime) 0 16777215 = 16777215 / 4.
Proof. split_and!; reflexivity. Qed.

Lemma C2_reconciliation_snapshot_witness :
  ∃ r, ensure_right_shape (RT := Zruntime) 0 1 [32; 32; 32] 0
         [demo_input [1; 4; 7; 8; 8]]
       = inr (1%nat, [demo_input [1; 4; 7; 8; 8]; r]) ∧
       shape r = [1; 4; 8; 8; 8] ∧
       data r [0; 0; 7; 0; 0] = 0.
Proof.
  destruct (C2_reconciliation_snapshot (RT := Zruntime)
              [demo_input [1; 4; 7; 8; 8]] 0 (demo_input [1; 4; 7; 8; 8])
              1 4 7 8 8 32 32 32 0)
    as (_ & _ & Hpad & _);
    [by left|reflexivity|reflexivity|lia..
    |split; reflexivity|split; reflexivity|split; reflexivity|].
  destruct Hpad as (r & E & _ & Sr & _ & Hz).
  - vm_compute. congruence.
  - vm_compute. repeat constructor; discriminate.
  - exists r. split; [exact E|]. split; [exact Sr|].
    apply Hz. intros H. repeat (apply Forall2_cons_1 in H as [? H]). lia.
Defined.

(** C2, as stated, fails for block index 1 on an input of depth 93: the
    output of block 2 has the spatial shape (12, 24, 24), which differs
    from the right shape (11, 24, 24), and no snapshot is made: the call
    raises the assertion error, and so does the forward pass. *)
Lemma C2_counterexample :
  right_size (RT := Zruntime) 1 <$> [93; 192; 192] = [11; 24; 24] ∧
  [12; 24; 24] ≠ [11; 24; 24] ∧
  ensure_right_shape (RT := Zruntime) 0 1 [93; 192; 192] 1
    [demo_input [1; 512; 12; 24; 24]]
  = inl AssertionError ∧
  demo_forward [3; 4; 9] 1 1 [1; 1; 93; 192; 192] = Ok (Raise AssertionError).
Proof.
  split; [reflexivity|]. split; [discriminate|].
  split; vm_compute; reflexivity.
Qed.

Lemma C3_standardized_convolution_witness :
  ∃ W', is_standardized demo_weight W' ∧
    refines (StdConv3d_forward demo_conv 0)
      [demo_input [1; 1; 3; 3; 3]; demo_weight]
      (conv3d_val (demo_input [1; 1; 3; 3; 3]) W' None 1 0 1 1)
      (λ l σ' out, σ' !! l = Some out ∧
         [demo_input [1; 1; 3; 3; 3]; demo_weight] `prefix_of` σ' ∧
         σ' !! 1%nat = Some demo_weight ∧
         param_opt σ' None = Ok None).
Proof.
  apply (C3_standardized_convolution (RT := Zruntime)
           [demo_input [1; 1; 3; 3; 3]; demo_weight] demo_conv 0
           (demo_input [1; 1; 3; 3; 3]) demo_weight 2 1 1 1 1 None);
    reflexivity.
Defined.

Lemma C4_bottleneck_forward_witness :
  ∃ u σ1,
    PreActBottleneck_3d_init (RT := Zruntime) 64 (Some 256) (Some 64) 2 []
    = inr (u, σ1) ∧
    (∃ ds g, downsample u = Some ds ∧ gn_proj u = Some g ∧
             stride ds = 2 ∧ num_groups g = 256) ∧
    unit_stride u = 2 ∧ stride (conv1 u) = 1.
Proof.
  destruct (PreActBottleneck_3d_init_succeeds (RT := Zruntime)
              64 (Some 256) (Some 64) 2) with (σ := @nil (@tensor Zruntime))
    as (u & σ1 & E); [lia|reflexivity|reflexivity|discriminate|reflexivity|].
  destruct (C4_bottleneck_forward (RT := Zruntime) 64 (Some 256) (Some 64) 2
              [] u σ1 E)
    as (C1 & _ & C2 & _ & _ & _ & Hproj & _).
  destruct Hproj as (ds & g & Eds & Eg & Cds & Gg & _); [left; lia|].
  exists u, σ1. split; [exact E|].
  split; [|split; [apply C2|apply C1]].
  exists ds, g. split; [exact Eds|]. split; [exact Eg|].
  split; [apply Cds|apply Gg].
Defined.

Lemma C5_shape_mismatch_assertion_witness :
  ensure_right_shape (RT := Zruntime) 0 1 [32; 32; 32] 0
    [demo_input [1; 4; 4; 8; 8]]
  = inl AssertionError ∧
  ∃ r, ensure_right_shape (RT := Zruntime) 0 1 [32; 32; 32] 0
         [demo_input [1; 4; 5; 8; 8]]
       = inr (1%nat, [demo_input [1; 4; 5; 8; 8]; r]) ∧
       data r [0; 0; 7; 7; 7] = 0.
Proof.
  split.
  - destruct (C5_shape_mismatch_assertion (RT := Zruntime)
                [demo_input [1; 4; 4; 8; 8]] 0 (demo_input [1; 4; 4; 8; 8])
                1 4 4 8 8 32 32 32 0)
      as (_ & _ & H4 & _); [reflexivity|reflexivity|lia..|].
    apply H4. vm_compute. by constructor.
  - destruct (C5_shape_mismatch_assertion (RT := Zruntime)
                [demo_input [1; 4; 5; 8; 8]] 0 (demo_input [1; 4; 5; 8; 8])
                1 4 5 8 8 32 32 32 0)
      as (_ & H3 & _); [reflexivity|reflexivity|lia..|].
    destruct H3 as (r & E & Hz).
    + vm_compute. repeat constructor; discriminate.
    + vm_compute. by constructor.
    + exists r. split; [exact E|]. apply Hz. intros H.
      repeat (apply Forall2_cons_1 in H as [? H]). lia.
Defined.

Lemma C6_reconciliation_noop_witness :
  ∃ net σ1 s1 s2 s3 tr σ',
    ResNetV2_3D_init (RT := Zruntime) [1; 1; 1] (1 # 2) 1 [] = inr (net, σ1) ∧
    body net = [s1; s2; s3] ∧
    runs_as net s1 s2 s3 (length σ1) 1 [33; 40; 48]
            (σ1 ++ [demo_input [1; 1; 33; 40; 48]]) tr σ' ∧
    tr_feat2 tr = tr_stage2 tr ∧ tr_feat1 tr ≠ tr_stage1 tr.
Proof.
  destruct (ResNetV2_3D_init_returns (RT := Zruntime) 1 1 1 (1 # 2) 1 [])
    as (net & σ1 & E & _ & Ew & _); [lia|reflexivity|reflexivity|].
  destruct (C6_reconciliation_noop (RT := Zruntime) 1 1 1 (1 # 2) 1 [] net σ1
              (σ1 ++ [demo_input [1; 1; 33; 40; 48]]) (length σ1)
              1 33 40 48 E)
    as (s1 & s2 & s3 & tr & σ' & Eb & Hr & E2 & H1 & _).
  - rewrite Ew. reflexivity.
  - rewrite Ew. reflexivity.
  - apply prefix_app_r. reflexivity.
  - eexists. split; [apply lookup_snoc|]. repeat split.
  - lia.
  - split; [lia|discriminate].
  - split; [lia|discriminate].
  - split; [lia|discriminate].
  - split; reflexivity.
  - split; reflexivity.
  - split; reflexivity.
  - reflexivity.
  - exists net, σ1, s1, s2, s3, tr, σ'.
    split; [exact E|]. split; [exact Eb|]. split; [exact Hr|].
    split; [exact E2|].
    intros Hf. apply H1 in Hf. apply Hf. right. left. reflexivity.
Defined.

(** C6, as stated, fails for block index 0: every axis of the input is
    divisible by [4 * (0 + 1)], and the snapshot of the first block is not
    its output but a tensor one voxel longer on every axis. *)
Lemma C6_counterexample :
  Forall (λ n, n mod (4 * (0 + 1)) = 0) [32; 32; 32] ∧
  ∃ tr, demo_steps [1; 1; 1] (1 # 2) 1 [1; 1; 32; 32; 32]
        = Ok (Ok (tr, Some [1; 128; 7; 7; 7], Some [1; 128; 8; 8; 8])) ∧
        tr_feat1 tr ≠ tr_stage1 tr.
Proof.
  split; [by repeat constructor|].
  eexists. split; [vm_compute; reflexivity|]. vm_compute. lia.
Qed.

Lemma C7_block_layout_witness :
  ∃ net σ1 s1 s2 s3,
    ResNetV2_3D_init (RT := Zruntime) [3; 4; 9] 1 1 [] = inr (net, σ1) ∧
    body net = [s1; s2; s3] ∧
    block_layout s1 3 64 256 64 1 ∧
    block_layout s2 4 256 512 128 2 ∧
    block_layout s3 9 512 1024 256 2.
Proof.
  destruct (C7_block_layout (RT := Zruntime) 3 4 9 1 1 [])
    as (net & σ1 & E & _ & s1 & s2 & s3 & Eb & L1 & L2 & L3);
    [lia|reflexivity|reflexivity|].
  exists net, σ1, s1, s2, s3.
  split; [exact E|]. split; [exact Eb|].
  split; [exact L1|]. split; [exact L2|exact L3].
Defined.

(** C7, as stated, fails on the configuration ((0, 1, 1), 65/128): the
    first block holds one unit and not zero; its first unit has 128 output
    channels and not [64 * (65/128) * 4 * 2^0 = 130]; its middle channels
    are a quarter of them and not a half. *)
Lemma C7_counterexample :
  demo_layout [0; 1; 1] (65 # 128) 1
  = Ok [[(32, 128, 32, 1)]; [(128, 256, 64, 2)]; [(256, 512, 128, 2)]] ∧
  length [(32, 128, 32, 1)] ≠ Z.to_nat 0 ∧
  ¬ (inject_Z 128 == 64 * (65 # 128) * 4 * 2 ^ (1 - 1))%Q ∧
  32 * 2 ≠ 128.
Proof.
  split; [vm_compute; reflexivity|].
  split; [simpl; lia|]. split; [|lia]. vm_compute. discriminate.
Qed.

Lemma C8_np2th_four_axes_witness :
  ∃ t, np2th (RT := Zruntime) (demo_array [3; 5; 2; 4]) true []
       = inr (0%nat, [t]) ∧
       shape t = [4; 2; 3; 5] ∧
       data t [1; 0; 2; 3] = nd_data (demo_array [3; 5; 2; 4]) [2; 3; 0; 1].
Proof.
  destruct (C8_np2th_four_axes (RT := Zruntime) []
              (demo_array [3; 5; 2; 4]) 3 5 2 4)
    as [(t & E & St & Dt) _]; [reflexivity|].
  exists t. split; [exact E|]. split; [exact St|]. apply Dt.
Defined.

(** C8, as stated, fails: on a five-axis array laid out as
    (kD, kH, kW, I, O), [np2th] with [conv=True] raises. *)
Lemma C8_counterexample :
  np2th (RT := Zruntime) (demo_array [3; 3; 3; 2; 4]) true []
  = inl ValueError.
Proof. reflexivity. Qed.

Lemma C9_zero_is_unspecified_witness :
  ∃ u σ',
    PreActBottleneck_3d_init (RT := Zruntime) 64 (Some 256) (Some 0) 1 []
    = inr (u, σ') ∧
    PreActBottleneck_3d_init (RT := Zruntime) 64 (Some 256) None 1 []
    = inr (u, σ') ∧
    unit_cout u = 256 ∧ unit_cmid u = 256 / 4.
Proof.
  destruct (PreActBottleneck_3d_init_succeeds (RT := Zruntime)
              64 (Some 256) (Some 0) 1) with (σ := @nil (@tensor Zruntime))
    as (u & σ' & E); [lia|reflexivity|reflexivity|discriminate|reflexivity|].
  destruct (C9_zero_is_unspecified (RT := Zruntime) 64 (Some 256) (Some 0) 1
              [] u σ' E)
    as (_ & _ & _ & E' & _ & Ho & Hm & _).
  exists u, σ'.
  split; [exact E|]. split; [exact (E' eq_refl)|].
  assert (unit_cout u = 256) as Eo by (apply (Ho 256); [reflexivity|lia]).
  split; [exact Eo|]. rewrite <- Eo. apply Hm. right. reflexivity.
Defined.

Lemma C10_padded_snapshot_dtype_witness :
  ∃ r, ensure_right_shape (RT := Zruntime) 0 1 [32; 32; 32] 0
         [@Tensor Zruntime [1; 4; 7; 8; 8] float64 (cuda 0) (λ _, 0)]
       = inr (1%nat,
              [@Tensor Zruntime [1; 4; 7; 8; 8] float64 (cuda 0) (λ _, 0); r])
       ∧ t_device r = cuda 0 ∧ t_dtype r = float32 ∧ t_dtype r ≠ float64.
Proof.
  destruct (C10_padded_snapshot_dtype (RT := Zruntime)
              [@Tensor Zruntime [1; 4; 7; 8; 8] float64 (cuda 0) (λ _, 0)] 0
              (@Tensor Zruntime [1; 4; 7; 8; 8] float64 (cuda 0) (λ _, 0))
              1 4 7 8 8 32 32 32 0)
    as (Hpad & _); [reflexivity|reflexivity|lia..|].
  destruct Hpad as (r & E & Hdev & Hdt & Hne).
  - vm_compute. congruence.
  - vm_compute. repeat constructor; discriminate.
  - exists r. split; [exact E|]. split; [exact Hdev|]. split; [exact Hdt|].
    apply Hne. discriminate.
Defined.
(** * The further properties at concrete inputs *)


















